(** * vmetrics-js: the buffered write path of [VictoriaMetricsClient]

    A shallow embedding of [src/src/types.ts] (the client class that the
    test file imports as [./client.js]): the line-protocol encoder
    [formatLineProtocol], the request built by [send], and the buffer
    protocol of [writePoint] / [flush] / [shutdown] as a labelled transition
    system over the events of the JavaScript event loop. *)

From Stdlib Require Import Bool List ZArith Lia Ascii String Floats.
From Stdlib Require Import DecimalString.
Import ListNotations.

Local Open Scope string_scope.

(* ================================================================== *)
(** ** The JavaScript built-ins the client relies on *)

Module JS.

(** A JavaScript string is a sequence of UTF-16 code units.  The model keeps
    the code units below 256, one [ascii] each, which covers every character
    the encoder inspects. *)

Definition backslash : ascii := "092"%char.
Definition dquote : ascii := "034"%char.

(** [Array.prototype.join]. *)
Definition join (sep : string) (parts : list string) : string :=
  String.concat sep parts.

(** A regular expression that is a one-character class, such as [/[,= ]/]:
    the list of the characters it matches. *)
Definition char_class := list ascii.

Definition matches (re : char_class) (c : ascii) : bool :=
  existsb (Ascii.eqb c) re.

(** [s.replace(re, replacement)] for a global one-character class [re].  The
    replacement is given as a function of the matched character, so that
    ['\\$1'] is [fun c => backslash c] and a constant replacement ignores
    its argument.  The scan goes left to right and never revisits what it
    has produced. *)
Fixpoint replace (re : char_class) (replacement : ascii -> string)
    (s : string) : string :=
  match s with
  | EmptyString => EmptyString
  | String c rest =>
      if matches re c
      then replacement c ++ replace re replacement rest
      else String c (replace re replacement rest)
  end.

(** WhiteSpace and LineTerminator code units below 256: TAB, LF, VT, FF, CR,
    SP and NBSP. *)
Definition isWhiteSpace (c : ascii) : bool :=
  existsb (Ascii.eqb c)
    ["009"%char; "010"%char; "011"%char; "012"%char; "013"%char;
     " "%char; "160"%char].

Fixpoint trimStart (s : string) : string :=
  match s with
  | EmptyString => EmptyString
  | String c rest => if isWhiteSpace c then trimStart rest else s
  end.

Fixpoint trimEnd (s : string) : string :=
  match s with
  | EmptyString => EmptyString
  | String c rest =>
      match trimEnd rest with
      | EmptyString => if isWhiteSpace c then EmptyString else String c EmptyString
      | kept => String c kept
      end
  end.

(** [String.prototype.trim]. *)
Definition trim (s : string) : string := trimEnd (trimStart s).

Fixpoint repeat0 (n : nat) : string :=
  match n with
  | O => EmptyString
  | S n' => String "0"%char (repeat0 n')
  end.

(** Decimal digits of a non-negative integer. *)
Definition digitsOf (n : N) : string :=
  NilZero.string_of_uint (N.to_uint n).

(** *** [Number::toString] (radix 10) on IEEE-754 binary64

    A finite non-zero double is [m * 2^e] with [m] its integral significand
    ([Prim2SF]).  The algorithm of ECMA-262 picks integers [n], [k], [s] with
    [10^(k-1) <= s < 10^k], [s * 10^(n-k)] rounding to the double, and [k] as
    small as possible, then lays the digits of [s] out according to [n]. *)

(** Compare [s * 10^q] with [b * 2^e]. *)
Definition cmp_dec_bin (s q b e : Z) : comparison :=
  Z.compare (s * 10 ^ Z.max q 0 * 2 ^ Z.max (- e) 0)
            (b * 2 ^ Z.max e 0 * 10 ^ Z.max (- q) 0).

(** [floor (m * 2^e / 10^q)]. *)
Definition floor_bin_dec (m e q : Z) : Z :=
  (m * 2 ^ Z.max e 0 * 10 ^ Z.max (- q) 0)
  / (2 ^ Z.max (- e) 0 * 10 ^ Z.max q 0).

(** Does the real [s * 10^q] round (to nearest, ties to even) to the double
    [m * 2^e]?  The rounding interval runs from the midpoint with the
    predecessor to the midpoint with the successor, in units of [2^(e-2)];
    its ends belong to it when [m] is even. *)
Definition rounds_to (m e s q : Z) : bool :=
  let lo := if (m =? 2 ^ 52)%Z && (-1074 <? e)%Z
            then (4 * m - 1)%Z else (4 * m - 2)%Z in
  let hi := (4 * m + 2)%Z in
  let inclusive := Z.even m in
  (match cmp_dec_bin s q lo (e - 2) with
   | Gt => true | Eq => inclusive | Lt => false end)
  &&
  (match cmp_dec_bin s q hi (e - 2) with
   | Lt => true | Eq => inclusive | Gt => false end).

(** The [k]-digit [s] for exponent [n], if there is one: the closest to the
    double among those that round to it, the even one on a tie. *)
Definition digits_at (m e k n : Z) : option Z :=
  let q := (n - k)%Z in
  let s0 := floor_bin_dec m e q in
  let ok s := (10 ^ (k - 1) <=? s)%Z && (s <? 10 ^ k)%Z && rounds_to m e s q in
  match ok s0, ok (s0 + 1)%Z with
  | true, false => Some s0
  | false, true => Some (s0 + 1)%Z
  | false, false => None
  | true, true =>
      match cmp_dec_bin (2 * s0 + 1) q (2 * m) e with
      | Gt => Some s0
      | Lt => Some (s0 + 1)%Z
      | Eq => Some (if Z.even s0 then s0 else (s0 + 1)%Z)
      end
  end.

(** The [n0] with [10^(n0-1) <= m * 2^e < 10^n0], searched upwards from an
    underestimate of the decimal logarithm. *)
Definition decimal_exponent (m e : Z) : Z :=
  let g := (((Z.log2 m + e) * 1233) / 4096 - 1)%Z in
  match find (fun n => match cmp_dec_bin 1 n m e with Gt => true | _ => false end)
             [g; g + 1; g + 2; g + 3; g + 4]%Z with
  | Some n => n
  | None => (g + 5)%Z
  end.

Fixpoint shortest (m e n0 : Z) (k : Z) (fuel : nat) : Z * Z * Z :=
  match fuel with
  | O => (n0, k, floor_bin_dec m e (n0 - k))
  | S fuel' =>
      match digits_at m e k n0, digits_at m e k (n0 + 1) with
      | Some s, None => (n0, k, s)
      | None, Some s => ((n0 + 1)%Z, k, s)
      | Some s, Some s' =>
          (* both [s * 10^(n0-k)] and [s' * 10^(n0+1-k)] round to the double:
             the closer of the two, the even one on a tie *)
          match cmp_dec_bin (s + 10 * s') (n0 - k) (2 * m) e with
          | Gt => (n0, k, s)
          | Lt => ((n0 + 1)%Z, k, s')
          | Eq => if Z.even s then (n0, k, s) else ((n0 + 1)%Z, k, s')
          end
      | None, None => shortest m e n0 (k + 1) fuel'
      end
  end.

Definition substring_from (i : nat) (s : string) : string :=
  substring i (String.length s - i) s.

Definition layout (n k s : Z) : string :=
  let ds := digitsOf (Z.to_N s) in
  if (k <=? n)%Z && (n <=? 21)%Z then
    ds ++ repeat0 (Z.to_nat (n - k))
  else if (0 <? n)%Z && (n <=? 21)%Z then
    substring 0 (Z.to_nat n) ds ++ "." ++ substring_from (Z.to_nat n) ds
  else if (-6 <? n)%Z && (n <=? 0)%Z then
    "0." ++ repeat0 (Z.to_nat (- n)) ++ ds
  else
    let ex := (n - 1)%Z in
    let sign := if (ex <? 0)%Z then "-" else "+" in
    if (k =? 1)%Z then
      ds ++ "e" ++ sign ++ digitsOf (Z.abs_N ex)
    else
      substring 0 1 ds ++ "." ++ substring_from 1 ds
        ++ "e" ++ sign ++ digitsOf (Z.abs_N ex).

Definition numberToString (x : float) : string :=
  match Prim2SF x with
  | S754_nan => "NaN"
  | S754_zero _ => "0"
  | S754_infinity false => "Infinity"
  | S754_infinity true => "-Infinity"
  | S754_finite negative m e =>
      let '(n, k, s) := shortest (Zpos m) e (decimal_exponent (Zpos m) e) 1 17 in
      (if negative then "-" else "") ++ layout n k s
  end.

End JS.

(* ================================================================== *)
(** ** Data model ([VMClientOptions], [VMDataPoint]) *)

(** A thrown [Error], by its message. *)
Record Error := { message : string }.

(** How a call ends: with a value, or by throwing.  For an [async] function
    the same type describes how its promise settles. *)
Inductive completion (A : Type) : Type :=
| Normal (a : A)
| Throw (e : Error).
Arguments Normal {A} a.
Arguments Throw {A} e.

Definition bind {A B} (m : completion A) (k : A -> completion B) : completion B :=
  match m with
  | Normal a => k a
  | Throw e => Throw e
  end.

(** [try { body } catch (error) { handler }]. *)
Definition try_catch {A} (body : completion A) (handler : Error -> completion A)
  : completion A :=
  match body with
  | Normal a => Normal a
  | Throw e => handler e
  end.

(** [Record<string, T>], given by what [Object.entries] yields for it: the
    own properties in enumeration order. *)
Definition Record_ (T : Type) : Type := list (string * T).

Definition entries {T} (o : Record_ T) : list (string * T) := o.

(** [number | string | boolean]. *)
Inductive FieldValue : Type :=
| FString (s : string)
| FBoolean (b : bool)
| FNumber (x : float).

(** A [Date], by its time value: an integral number of milliseconds, or NaN
    for an invalid date. *)
Record Date := { getTime : float }.

Record VMDataPoint := {
  measurement : string;
  tags : Record_ string;
  fields : Record_ FieldValue;
  timestamp : option Date
}.

Record Auth := { bearer : string }.

(** The options as the caller passes them. *)
Module VMClientOptions.
Record t := {
  url : string;
  auth : option Auth;
  batchSize : option Z;
  flushInterval : option Z
}.
End VMClientOptions.

(** [this.options]: the options with the defaults filled in. *)
Module Options.
Record t := {
  auth : option Auth;
  batchSize : Z;
  flushInterval : Z;
  url : string
}.
End Options.

(** [a ?? b]. *)
Definition nullish {A} (a : option A) (b : A) : A :=
  match a with
  | Some x => x
  | None => b
  end.

(* ================================================================== *)
(** ** The encoder: [formatLineProtocol] *)

(** The replacement ['\\$1']: a backslash, then the matched character. *)
Definition backslashed (c : ascii) : string :=
  String JS.backslash (String c "").

Definition escapeTag (s : string) : string :=
  JS.replace [","; "="; " "]%char backslashed s.

Definition escapeStringField (s : string) : string :=
  JS.replace [JS.dquote]
    (fun _ => String JS.backslash (String JS.dquote ""))
    (JS.replace [JS.backslash]
       (fun _ => String JS.backslash (String JS.backslash "")) s).

(** The callback of [Object.entries(point.fields).map]: one [key=value]
    item, or [null] ([None]) for a value of no known type. *)
Definition formatField (kv : string * FieldValue) : option string :=
  let '(k, v) := kv in
  let key := escapeTag k in
  match v with
  | FString s =>
      Some (key ++ "=" ++ String JS.dquote (escapeStringField s)
                ++ String JS.dquote "")
  | FBoolean b => Some (key ++ "=" ++ (if b then "t" else "f"))
  | FNumber x => Some (key ++ "=" ++ JS.numberToString x)
  end.

(** [.filter(Boolean)] on an array of strings and nulls: drops the nulls and
    the empty strings. *)
Fixpoint filterBoolean (l : list (option string)) : list string :=
  match l with
  | [] => []
  | Some EmptyString :: l' => filterBoolean l'
  | Some s :: l' => s :: filterBoolean l'
  | None :: l' => filterBoolean l'
  end.

Definition formatTag (kv : string * string) : string :=
  let '(k, v) := kv in escapeTag k ++ "=" ++ escapeTag v.

Definition formatLineProtocol (point : VMDataPoint) : completion string :=
  let tags := JS.join "," (map formatTag (entries (tags point))) in
  let fields :=
    JS.join "," (filterBoolean (map formatField (entries (fields point)))) in
  if Nat.eqb (String.length fields) 0 then
    Throw {| message := "Data point must have at least one field" |}
  else
    let measurement :=
      JS.replace [","; " "]%char backslashed (measurement point) in
    let timestamp :=
      match timestamp point with
      | Some d => JS.numberToString (getTime d * 1000000)%float
      | None => ""
      end in
    let measurementAndTags :=
      if Nat.ltb 0 (String.length tags)
      then measurement ++ "," ++ tags
      else measurement in
    Normal (JS.trim (measurementAndTags ++ " " ++ fields ++ " " ++ timestamp)).

(* ================================================================== *)
(** ** The transport: [send] *)

Record Request := {
  req_url : string;
  req_method : string;
  req_headers : Record_ string;
  req_body : string
}.

(** What the core reads of a [fetch] response: the status, and how
    [response.text()] settles. *)
Record Response := {
  status : N;
  text : completion string
}.

Definition newline : string := String "010"%char "".

(** The synchronous first part of [send], up to the call of [fetch]: the
    request it issues.  The bearer test is a truthiness test, so an empty
    token counts as none. *)
Definition send_request (options : Options.t) (points : list string) : Request :=
  let body := JS.join newline points in
  let headers := [("Content-Type", "text/plain")] in
  let headers :=
    match Options.auth options with
    | Some a =>
        if Nat.ltb 0 (String.length (bearer a))
        then List.app headers [("Authorization", "Bearer " ++ bearer a)]
        else headers
    | None => headers
    end in
  {| req_url := Options.url options ++ "/write";
     req_method := "POST";
     req_headers := headers;
     req_body := body |}.

(** The rest of [send], once [fetch] has settled with [fetched]. *)
Definition send_settle (fetched : completion Response) : completion unit :=
  bind fetched (fun response =>
    if N.eqb (status response) 204 then Normal tt
    else
      bind (text response) (fun body =>
        Throw {| message := "[VMClient] Server responded with status "
                            ++ JS.digitsOf (status response) ++ ": " ++ body |})).

(** [send] against a network that answers the request with [fetch]. *)
Definition send (options : Options.t) (fetch : Request -> completion Response)
    (points : list string) : completion unit :=
  send_settle (fetch (send_request options points)).

(* ================================================================== *)
(** ** The read path: [query] *)

(** The response types of [types.ts]. *)
Definition PrometheusMetric : Type := Record_ string.

Record PrometheusVectorResult := {
  vector_metric : PrometheusMetric;
  value : float * string * bool
}.

Record PrometheusMetrixResult := {
  matrix_metric : PrometheusMetric;
  values : list (float * string)
}.

(** The union is tagged by the field the source spells [reultType]. *)
Inductive PrometheusData : Type :=
| vector (result : list PrometheusVectorResult)
| matrix (result : list PrometheusMetrixResult)
| scalar (result : float * string)
| string_ (result : float * string).

Module PrometheusQueryResponse.
(** ['success' | 'error']. *)
Inductive status_t : Type := status_success | status_error.
Record t := {
  status : status_t;
  data : PrometheusData;
  error : option string;
  errorType : option string;
  warnings : option (list string)
}.
End PrometheusQueryResponse.

(** [response.ok]: a status from 200 to 299. *)
Definition response_ok (response : Response) : bool :=
  (200 <=? status response)%N && (status response <=? 299)%N.

(** The synchronous first part of [query], up to the call of [fetch]. *)
Definition query_request (options : Options.t) (query : string) : Request :=
  let body := "query=" ++ query in
  let headers := [("Content-Type", "application/x-www-form-urlencoded")] in
  let headers :=
    match Options.auth options with
    | Some a =>
        if Nat.ltb 0 (String.length (bearer a))
        then List.app headers [("Authorization", "Bearer " ++ bearer a)]
        else headers
    | None => headers
    end in
  {| req_url := Options.url options ++ "/prometheus/api/v1/query";
     req_method := "POST";
     req_headers := headers;
     req_body := body |}.

(** The rest of [query], once [fetch] has settled: with the response comes
    the way its [json()] settles, the parsed body being taken as a
    [PrometheusQueryResponse] unchecked, as the cast in the source does. *)
Definition query_settle
    (fetched : completion (Response * completion PrometheusQueryResponse.t))
  : completion PrometheusQueryResponse.t :=
  bind fetched (fun answer =>
    let '(response, json) := answer in
    if negb (response_ok response) then
      bind (text response) (fun body =>
        Throw {| message := "[VMClient] Query failed with status "
                            ++ JS.digitsOf (status response) ++ ": " ++ body |})
    else
      bind json (fun data => Normal data)).

Definition query (options : Options.t)
    (fetch : Request -> completion (Response * completion PrometheusQueryResponse.t))
    (text_of_query : string) : completion PrometheusQueryResponse.t :=
  query_settle (fetch (query_request options text_of_query)).

(* ================================================================== *)
(** ** The client: buffer, mutex, timer

    JavaScript runs one job at a time, so the client's behaviour is a
    sequence of atomic steps, each the synchronous stretch of code between
    two suspension points.  [flush] has two such stretches: from the moment
    [bufferMutex] hands it the lock up to [await this.send(...)], and from
    the settling of that send to the release of the lock. *)

(** Who called [flush()]. *)
Inductive caller : Type :=
| ByTimer        (* the [setInterval] callback *)
| ByThreshold    (* [writePoint], on reaching [batchSize] *)
| ByUser         (* the application *)
| ByShutdown.    (* [shutdown] *)

(** What the client needs to know of the JavaScript engine it runs on: how
    many arguments a call may take ([f(...array)] pushes every element of the
    array on the stack) and the [RangeError] thrown beyond that. *)
Record Engine := {
  max_arguments : Z;
  range_error : Error
}.

(** How a [flush()] ended. *)
Inductive outcome : Type :=
| Noop        (* the buffer was empty *)
| Sent        (* the send succeeded *)
| Requeued    (* the send failed and the snapshot went back *)
| Rejected (e : Error).
              (* the send failed and putting the snapshot back threw [e]:
                 the promise of [flush()] is rejected with it *)

(** How the promise of a [flush()] that ended so settles. *)
Definition outcome_result (how : outcome) : completion unit :=
  match how with
  | Rejected e => Throw e
  | _ => Normal tt
  end.

Record client := {
  options : Options.t;
  buffer : list string;
  (** [flush()] calls queued on [bufferMutex], oldest first *)
  waiting : list caller;
  (** the [flush()] holding [bufferMutex], suspended in [send], with its
      [dataToSend] *)
  inflight : option (caller * list string);
  (** is the interval behind [timerId] still armed? *)
  timerId : bool;
  (** what [console.error] has printed: label and error *)
  console : list (string * Error);
  (** the requests [fetch] was called with *)
  network : list Request;
  (** the [flush()] promises that have resolved, in order *)
  settled : list (caller * outcome);
  (** the lines of the requests the server answered with 204 *)
  delivered : list string;
  (** the promises of the [shutdown()] calls that have settled, in order;
      a call that is still suspended at its [await] is not among them *)
  shutdowns : list (completion unit)
}.

Definition set_buffer (b : list string) (c : client) : client :=
  {| options := options c; buffer := b; waiting := waiting c;
     inflight := inflight c; timerId := timerId c; console := console c;
     network := network c; settled := settled c; delivered := delivered c;
     shutdowns := shutdowns c |}.

Definition set_waiting (w : list caller) (c : client) : client :=
  {| options := options c; buffer := buffer c; waiting := w;
     inflight := inflight c; timerId := timerId c; console := console c;
     network := network c; settled := settled c; delivered := delivered c;
     shutdowns := shutdowns c |}.

Definition set_inflight (i : option (caller * list string)) (c : client) : client :=
  {| options := options c; buffer := buffer c; waiting := waiting c;
     inflight := i; timerId := timerId c; console := console c;
     network := network c; settled := settled c; delivered := delivered c;
     shutdowns := shutdowns c |}.

(** [clearInterval(this.timerId)]. *)
Definition clearInterval (c : client) : client :=
  {| options := options c; buffer := buffer c; waiting := waiting c;
     inflight := inflight c; timerId := false; console := console c;
     network := network c; settled := settled c; delivered := delivered c;
     shutdowns := shutdowns c |}.

(** [console.error(label, error)]. *)
Definition console_error (label : string) (error : Error) (c : client) : client :=
  {| options := options c; buffer := buffer c; waiting := waiting c;
     inflight := inflight c; timerId := timerId c;
     console := List.app (console c) [(label, error)];
     network := network c; settled := settled c; delivered := delivered c;
     shutdowns := shutdowns c |}.

(** [fetch(...)] is called with [r]. *)
Definition fetch_called (r : Request) (c : client) : client :=
  {| options := options c; buffer := buffer c; waiting := waiting c;
     inflight := inflight c; timerId := timerId c; console := console c;
     network := List.app (network c) [r];
     settled := settled c; delivered := delivered c;
     shutdowns := shutdowns c |}.

(** The promise of [who]'s [flush()] resolves. *)
Definition resolve (who : caller) (how : outcome) (c : client) : client :=
  {| options := options c; buffer := buffer c; waiting := waiting c;
     inflight := inflight c; timerId := timerId c; console := console c;
     network := network c;
     settled := List.app (settled c) [(who, how)];
     delivered := delivered c;
     shutdowns := shutdowns c |}.

(** The server has acknowledged [lines]. *)
Definition acknowledged (lines : list string) (c : client) : client :=
  {| options := options c; buffer := buffer c; waiting := waiting c;
     inflight := inflight c; timerId := timerId c; console := console c;
     network := network c; settled := settled c;
     delivered := List.app (delivered c) lines;
     shutdowns := shutdowns c |}.

(** The constructor: defaults filled in, empty buffer, free mutex, armed
    timer. *)
Definition new_VictoriaMetricsClient (o : VMClientOptions.t) : client :=
  {| options :=
       {| Options.auth := VMClientOptions.auth o;
          Options.batchSize := nullish (VMClientOptions.batchSize o) 1000%Z;
          Options.flushInterval := nullish (VMClientOptions.flushInterval o) 5000%Z;
          Options.url := VMClientOptions.url o |};
     buffer := [];
     waiting := [];
     inflight := None;
     timerId := true;
     console := [];
     network := [];
     settled := [];
     delivered := [];
     shutdowns := [] |}.

(** [shutdown] from its [await] on: the promise of its [flush()] has
    settled with [flushed], and the call ends the same way, returning if the
    flush resolved and throwing what it was rejected with. *)
Definition shutdown_resume (flushed : completion unit) (c : client) : client :=
  {| options := options c; buffer := buffer c; waiting := waiting c;
     inflight := inflight c; timerId := timerId c; console := console c;
     network := network c; settled := settled c; delivered := delivered c;
     shutdowns := List.app (shutdowns c) [flushed] |}.

(** The promise of [who]'s [flush()] settles: whoever waits on it goes on.
    [shutdown] resumes after its [await]; the interval callback and
    [writePoint] attached a [.catch] that logs a rejection; the application
    holds the promise of its own call. *)
Definition flush_settled (who : caller) (how : outcome) (c : client) : client :=
  let c := resolve who how c in
  match who, outcome_result how with
  | ByShutdown, flushed => shutdown_resume flushed c
  | ByTimer, Throw error => console_error "[VMClient] Flush error:" error c
  | ByThreshold, Throw error => console_error "[VMClient] Flush error: " error c
  | _, _ => c
  end.

(** A call of [flush()]: it queues on [bufferMutex] and returns its promise
    at once; the callback of [runExclusive] runs in a later job. *)
Definition flush (who : caller) (c : client) : client :=
  set_waiting (List.app (waiting c) [who]) c.

(** First stretch of [flush]: the oldest waiting call gets the lock (only
    when nobody holds it) and runs up to [await this.send(dataToSend)].  An
    empty buffer ends the call on the spot. *)
Definition flush_enter (c : client) : option client :=
  match inflight c, waiting c with
  | None, who :: rest =>
      let c := set_waiting rest c in
      if Nat.eqb (List.length (buffer c)) 0 then
        Some (flush_settled who Noop c)
      else
        let dataToSend := buffer c in           (* this.buffer.splice(0) *)
        let c := set_buffer [] c in
        let c := fetch_called (send_request (options c) dataToSend) c in
        Some (set_inflight (Some (who, dataToSend)) c)
  | _, _ => None
  end.

(** From here on the engine is fixed. *)
Section Engine.

Variable engine : Engine.

(** [target.unshift(...items)]: the items go in front, in their order,
    unless they are more than a call takes arguments; then the call throws
    before it has changed anything. *)
Definition unshift_spread (items target : list string)
  : completion (list string) :=
  if (Z.of_nat (List.length items) <=? max_arguments engine)%Z
  then Normal (List.app items target)
  else Throw (range_error engine).

(** Second stretch of [flush]: the pending [fetch] has settled with
    [fetched] (for a response other than 204 this includes the settling of
    [response.text()]; the buffer is only touched after both).  A failed send
    is logged and [dataToSend] is put back with [unshift]; if that throws,
    in the [catch] block, the callback of [runExclusive] is rejected with
    the error, the mutex is released and the snapshot is gone. *)
Definition flush_settle (c : client) (fetched : completion Response) : option client :=
  match inflight c with
  | Some (who, dataToSend) =>
      let c := set_inflight None c in
      match send_settle fetched with
      | Normal _ => Some (flush_settled who Sent (acknowledged dataToSend c))
      | Throw error =>
          let c := console_error "[VMClient] Flush failed:" error c in
          match unshift_spread dataToSend (buffer c) with
          | Normal requeued =>
              Some (flush_settled who Requeued (set_buffer requeued c))
          | Throw thrown => Some (flush_settled who (Rejected thrown) c)
          end
      end
  | None => None
  end.

Definition writePoint (c : client) (point : VMDataPoint) : completion client :=
  try_catch
    (bind (formatLineProtocol point) (fun line =>
       let c := set_buffer (List.app (buffer c) [line]) c in    (* push *)
       if (Options.batchSize (options c) <=? Z.of_nat (List.length (buffer c)))%Z
       then Normal (flush ByThreshold c)
       else Normal c))
    (fun error =>
       Normal (console_error "[VMClient] Failed to format data point:" error c)).

(** [shutdown], up to its [await]: the interval is cleared, [flush()] is
    called, and the call is suspended on the promise of that flush; it goes
    on in [shutdown_resume] when [flush_settled] settles that promise. *)
Definition shutdown (c : client) : client :=
  flush ByShutdown (clearInterval c).

Inductive event : Type :=
| EvWritePoint (point : VMDataPoint)            (* the application writes *)
| EvFlush                                       (* the application flushes *)
| EvTick                                        (* the interval elapses *)
| EvShutdown                                    (* the application shuts down *)
| EvEnter                                       (* the mutex admits a flush *)
| EvSettle (fetched : completion Response).     (* the network answers *)

(** One step; [None] when the event cannot happen in this state. *)
Definition step (c : client) (ev : event) : option client :=
  match ev with
  | EvWritePoint point =>
      match writePoint c point with
      | Normal c' => Some c'
      | Throw _ => None
      end
  | EvFlush => Some (flush ByUser c)
  | EvTick => if timerId c then Some (flush ByTimer c) else None
  | EvShutdown => Some (shutdown c)
  | EvEnter => flush_enter c
  | EvSettle fetched => flush_settle c fetched
  end.

Fixpoint run (c : client) (evs : list event) : option client :=
  match evs with
  | [] => Some c
  | ev :: evs' =>
      match step c ev with
      | Some c' => run c' evs'
      | None => None
      end
  end.

(** The lines a run of events pushes: one per point that encodes. *)
Definition accepted (evs : list event) : list string :=
  flat_map (fun ev =>
    match ev with
    | EvWritePoint point =>
        match formatLineProtocol point with
        | Normal line => [line]
        | Throw _ => []
        end
    | _ => []
    end) evs.

(** The snapshot in flight, if any. *)
Definition snapshot (c : client) : list string :=
  match inflight c with
  | Some (_, dataToSend) => dataToSend
  | None => []
  end.

Definition is_write (ev : event) : bool :=
  match ev with EvWritePoint _ => true | _ => false end.

Definition is_enter (ev : event) : bool :=
  match ev with EvEnter => true | _ => false end.

Definition is_settle (ev : event) : bool :=
  match ev with EvSettle _ => true | _ => false end.

Definition is_shutdown (ev : event) : bool :=
  match ev with EvShutdown => true | _ => false end.

(* ================================================================== *)
(** ** Vocabulary of the properties *)

(** Every character of [specials] that occurs in [s] has a backslash right
    before it; [prev] is the character before [s], if any. *)
Fixpoint escaped_after (prev : option ascii) (specials : JS.char_class)
    (s : string) : bool :=
  match s with
  | EmptyString => true
  | String c rest =>
      (negb (JS.matches specials c)
       || match prev with
          | Some p => Ascii.eqb p JS.backslash
          | None => false
          end)
      && escaped_after (Some c) specials rest
  end.

Definition all_escaped (specials : JS.char_class) (s : string) : bool :=
  escaped_after None specials s.

(** Reading an escaped text back: a backslash followed by a character of
    [specials] stands for that character; everything else stands for
    itself. *)
Fixpoint unescape (specials : JS.char_class) (s : string) : string :=
  match s with
  | EmptyString => EmptyString
  | String c rest =>
      match rest with
      | String d rest' =>
          if Ascii.eqb c JS.backslash && JS.matches specials d
          then String d (unescape specials rest')
          else String c (unescape specials rest)
      | EmptyString => String c EmptyString
      end
  end.

(** How a field value is written after the [=]. *)
Definition fieldValueText (v : FieldValue) : string :=
  match v with
  | FString s => String JS.dquote (escapeStringField s) ++ String JS.dquote ""
  | FBoolean b => if b then "t" else "f"
  | FNumber x => JS.numberToString x
  end.

(** Does the point encode? *)
Definition encodes (point : VMDataPoint) : bool :=
  match formatLineProtocol point with
  | Normal _ => true
  | Throw _ => false
  end.

Definition caller_eqb (a b : caller) : bool :=
  match a, b with
  | ByTimer, ByTimer | ByThreshold, ByThreshold
  | ByUser, ByUser | ByShutdown, ByShutdown => true
  | _, _ => false
  end.

(** The [flush()] calls of [who] that the client knows of: those waiting for
    the mutex, the one sending, those that have ended. *)
Definition flush_calls (who : caller) (c : client) : nat :=
  List.length (filter (caller_eqb who) (waiting c))
  + match inflight c with
    | Some (w, _) => if caller_eqb who w then 1 else 0
    | None => 0
    end
  + List.length (filter (fun x => caller_eqb who (fst x)) (settled c)).

(** How the promises of the [flush()] calls of [who] that have ended
    settled, in order. *)
Definition flush_results (who : caller) (c : client) : list (completion unit) :=
  map (fun x => outcome_result (snd x))
    (filter (fun x => caller_eqb who (fst x)) (settled c)).

(** Nothing is left over from a final flush that did not fail. *)
Definition drained_by_shutdown (c : client) : Prop :=
  (forall dataToSend,
     inflight c = Some (ByShutdown, dataToSend) -> buffer c = [])
  /\ (In (ByShutdown, Sent) (settled c) \/ In (ByShutdown, Noop) (settled c) ->
      buffer c = [] /\ inflight c = None).

(* ================================================================== *)
(** ** More vocabulary *)

Fixpoint string_forall (P : ascii -> bool) (s : string) : bool :=
  match s with
  | EmptyString => true
  | String c rest => P c && string_forall P rest
  end.

Definition first_char (s : string) : option ascii :=
  match s with
  | EmptyString => None
  | String c _ => Some c
  end.

Fixpoint last_char (s : string) : option ascii :=
  match s with
  | EmptyString => None
  | String c EmptyString => Some c
  | String _ rest => last_char rest
  end.

(** How many characters of [s] the class matches. *)
Fixpoint count_matches (re : JS.char_class) (s : string) : nat :=
  match s with
  | EmptyString => 0
  | String c rest =>
      (if JS.matches re c then 1 else 0) + count_matches re rest
  end.

(** The characters a number can be written with: digits, point, exponent
    mark, signs, and the letters of [NaN] and [Infinity]. *)
Definition is_number_char (c : ascii) : bool :=
  existsb (Ascii.eqb c)
    ["0"; "1"; "2"; "3"; "4"; "5"; "6"; "7"; "8"; "9"; "."; "e"; "+"; "-";
     "N"; "a"; "I"; "n"; "f"; "i"; "t"; "y"]%char.

(** [k] times the same events. *)
Fixpoint cycles (k : nat) (evs : list event) : list event :=
  match k with
  | O => []
  | S k' => List.app evs (cycles k' evs)
  end.

(** How many of [n] successive pushes onto a buffer of [len] lines reach the
    threshold [batchSize]: all but the first [batchSize - len - 1]. *)
Definition threshold_calls (batchSize : Z) (len n : nat) : nat :=
  n - Nat.min n (Z.to_nat (batchSize - Z.of_nat len - 1)).

(** The flushes among the ended ones that sent a request. *)
Definition sends (ended : list (caller * outcome)) : nat :=
  List.length
    (filter (fun x => match snd x with Noop => false | _ => true end) ended).

(** The lines the client holds, in the buffer or in flight, are encoded
    lines (none is empty), and a snapshot in flight has at least one. *)
Definition holds_lines (c : client) : Prop :=
  Forall (fun l => l <> "") (buffer c)
  /\ Forall (fun l => l <> "") (snapshot c)
  /\ (forall who, inflight c <> Some (who, [])).

(** The payload as the specification words it: the lines in their order,
    with one line feed (U+000A) between each two of them and none before the
    first or after the last. *)
Fixpoint lines_text (lines : list string) : string :=
  match lines with
  | [] => ""
  | line :: rest =>
      match rest with
      | [] => line
      | _ :: _ => line ++ String (Ascii.ascii_of_nat 10) (lines_text rest)
      end
  end.

(** A request of the write path: a POST to [<url>/write] with a body. *)
Definition write_request (options : Options.t) (r : Request) : Prop :=
  req_url r = Options.url options ++ "/write"
  /\ req_method r = "POST"
  /\ req_body r <> "".

(* ================================================================== *)
(** ** Sample data *)

(** The point of the repository's test, [client.spec.ts]. *)
Definition logs_point : VMDataPoint :=
  {| measurement := "logs";
     tags := [("app", "main")];
     fields := [("level", FString "info"); ("active", FBoolean true);
                ("count", FNumber 2)];
     timestamp := None |}.

Definition escaping_point : VMDataPoint :=
  {| measurement := "cpu load,a=b";
     tags := [("dc 1", "eu,west=2")];
     fields := [("msg", FString (String JS.dquote "a b")); ("n", FNumber 1)];
     timestamp := None |}.

Definition sample_options : VMClientOptions.t :=
  {| VMClientOptions.url := "http://0.0.0.0:8428";
     VMClientOptions.auth := None;
     VMClientOptions.batchSize := Some 3%Z;
     VMClientOptions.flushInterval := None |}.

Definition point_of (name : string) : VMDataPoint :=
  {| measurement := name; tags := [];
     fields := [("v", FNumber 1)]; timestamp := None |}.

(** Two lines buffered and one [flush()] waiting for the mutex. *)
Definition sample_pending : client :=
  flush ByUser
    (set_buffer ["a v=1"; "b v=1"] (new_VictoriaMetricsClient sample_options)).

(** An engine whose calls take up to 65535 arguments, and one that takes
    two, to keep examples short. *)
Definition sample_engine : Engine :=
  {| max_arguments := 65535;
     range_error := {| message := "Maximum call stack size exceeded" |} |}.

Definition tiny_engine : Engine :=
  {| max_arguments := 2;
     range_error := {| message := "Maximum call stack size exceeded" |} |}.

(** Three lines buffered, one more than [tiny_engine] takes arguments, and
    one [flush()] waiting for the mutex. *)
Definition sample_overfull : client :=
  flush ByUser
    (set_buffer ["a v=1"; "b v=1"; "c v=1"]
       (new_VictoriaMetricsClient sample_options)).

Definition server_error : completion Response :=
  Normal {| status := 500; text := Normal "boom" |}.

Definition no_content : completion Response :=
  Normal {| status := 204; text := Normal "" |}.

(* ================================================================== *)
(** ** Strings *)

Lemma append_nil_r (s : string) : s ++ "" = s.
Proof. induction s as [|c s IH]; simpl; [reflexivity | now rewrite IH]. Qed.

Lemma append_assoc (s t u : string) : (s ++ t) ++ u = s ++ (t ++ u).
Proof. induction s as [|c s IH]; simpl; [reflexivity | now rewrite IH]. Qed.

Lemma length_append (s t : string) :
  String.length (s ++ t) = String.length s + String.length t.
Proof. induction s as [|c s IH]; simpl; [reflexivity | now rewrite IH]. Qed.

Lemma join_In (sep x : string) (l : list string) :
  In x l -> exists pre post, JS.join sep l = pre ++ x ++ post.
Proof.
  unfold JS.join.
  induction l as [|y l IH]; intros Hin; [contradiction|].
  destruct Hin as [-> | Hin].
  - destruct l as [|z l].
    + exists "", "". simpl. now rewrite append_nil_r.
    + exists "", (sep ++ String.concat sep (z :: l)). reflexivity.
  - destruct l as [|z l]; [contradiction|].
    destruct (IH Hin) as (pre & post & E).
    exists (y ++ sep ++ pre), post.
    change (String.concat sep (y :: z :: l))
      with (y ++ sep ++ String.concat sep (z :: l)).
    rewrite E. now rewrite !append_assoc.
Qed.

(* ------------------------------------------------------------------ *)
(** *** Trimming *)

Lemma trimEnd_app_space (s : string) : JS.trimEnd (s ++ " ") = JS.trimEnd s.
Proof.
  induction s as [|c s IH]; [reflexivity|].
  cbn [append JS.trimEnd]. now rewrite IH.
Qed.

Lemma trimStart_app_space (s : string) :
  JS.trimStart (s ++ " ") = JS.trimStart s ++ " "
  \/ (JS.trimStart (s ++ " ") = "" /\ JS.trimStart s = "").
Proof.
  induction s as [|c s IH]; [right; split; reflexivity|].
  cbn [append JS.trimStart].
  destruct (JS.isWhiteSpace c); [exact IH | left; reflexivity].
Qed.

(** A space at the end does not survive [trim]. *)
Lemma trim_app_space (s : string) : JS.trim (s ++ " ") = JS.trim s.
Proof.
  unfold JS.trim.
  destruct (trimStart_app_space s) as [E | [E1 E2]].
  - rewrite E. apply trimEnd_app_space.
  - now rewrite E1, E2.
Qed.

(* ------------------------------------------------------------------ *)
(** *** Escaping by [replace] *)

Section Escaping.

Variable specials : JS.char_class.

Lemma replace_head_plain (s : string) (d : ascii) (rest : string) :
  JS.matches specials JS.backslash = false ->
  JS.replace specials backslashed s = String d rest ->
  JS.matches specials d = false.
Proof.
  intros Hb. destruct s as [|c s]; simpl; [discriminate|].
  destruct (JS.matches specials c) eqn:Hc; simpl; intros E;
    injection E as <- _; assumption.
Qed.

(** Unescaping undoes the escaping, whatever the class. *)
Lemma unescape_replace (s : string) :
  unescape specials (JS.replace specials backslashed s) = s.
Proof.
  induction s as [|c s IH]; [reflexivity|].
  cbn [JS.replace].
  destruct (JS.matches specials c) eqn:Hc.
  - cbn [backslashed append unescape].
    rewrite Ascii.eqb_refl, Hc. cbn [andb]. now rewrite IH.
  - cbn [unescape].
    destruct (JS.replace specials backslashed s) as [|d r] eqn:Er.
    + destruct s as [|c' s']; [reflexivity|].
      simpl in Er. destruct (JS.matches specials c'); discriminate.
    + destruct (Ascii.eqb_spec c JS.backslash) as [-> | Hne].
      * rewrite (replace_head_plain s d r Hc Er). cbn [andb].
        now rewrite IH.
      * cbn [andb]. now rewrite IH.
Qed.

(** After the escaping, every character of a backslash-free part [sub] of
    the class has a backslash before it. *)
Lemma escaped_after_replace (sub : JS.char_class) (prev : option ascii)
    (s : string) :
  JS.matches sub JS.backslash = false ->
  (forall c, JS.matches sub c = true -> JS.matches specials c = true) ->
  escaped_after prev sub (JS.replace specials backslashed s) = true.
Proof.
  intros Hb Hsub. revert prev.
  induction s as [|c s IH]; intros prev; [reflexivity|].
  cbn [JS.replace].
  destruct (JS.matches specials c) eqn:Hc.
  - cbn [backslashed append escaped_after].
    rewrite Hb, Ascii.eqb_refl, IH. cbn [negb orb andb].
    now rewrite orb_true_r.
  - cbn [escaped_after]. rewrite IH.
    destruct (JS.matches sub c) eqn:Hs; [|reflexivity].
    apply Hsub in Hs. congruence.
Qed.

End Escaping.

(** The two passes of [escapeStringField] amount to one pass that puts a
    backslash before every backslash and every double quote. *)
Lemma escapeStringField_one_pass (s : string) :
  escapeStringField s = JS.replace [JS.backslash; JS.dquote] backslashed s.
Proof.
  unfold escapeStringField.
  induction s as [|c s IH]; [reflexivity|].
  cbn [JS.replace].
  destruct (Ascii.eqb_spec c JS.backslash) as [-> | Hb].
  - cbn. f_equal. f_equal. exact IH.
  - assert (E1 : JS.matches [JS.backslash] c = false).
    { cbn. apply Ascii.eqb_neq in Hb. now rewrite Hb. }
    rewrite E1. cbn [JS.replace].
    assert (E2 : JS.matches [JS.backslash; JS.dquote] c = JS.matches [JS.dquote] c).
    { cbn. apply Ascii.eqb_neq in Hb. now rewrite Hb. }
    rewrite E2.
    destruct (JS.matches [JS.dquote] c) eqn:Hq.
    + assert (c = JS.dquote) as ->.
      { cbn in Hq. rewrite orb_false_r in Hq. now apply Ascii.eqb_eq. }
      cbn [append]. unfold backslashed. cbn [append]. f_equal. f_equal. exact IH.
    + f_equal. exact IH.
Qed.

(* ================================================================== *)
(** ** The encoder *)

Lemma append_cons_nonempty (s t : string) (c : ascii) :
  exists c' t', s ++ String c t = String c' t'.
Proof. destruct s as [|d s]; simpl; eauto. Qed.

Lemma formatField_eq (k : string) (v : FieldValue) :
  formatField (k, v) = Some (escapeTag k ++ "=" ++ fieldValueText v).
Proof.
  destruct v as [s | b | x]; reflexivity.
Qed.

Lemma filterBoolean_formatField (l : Record_ FieldValue) :
  filterBoolean (map formatField l)
  = map (fun kv => escapeTag (fst kv) ++ "=" ++ fieldValueText (snd kv)) l.
Proof.
  induction l as [|[k v] l IH]; [reflexivity|].
  cbn [map fst snd]. rewrite formatField_eq.
  destruct (append_cons_nonempty (escapeTag k) (fieldValueText v) "="%char)
    as (c' & t' & E).
  change (escapeTag k ++ "=" ++ fieldValueText v)
    with (escapeTag k ++ String "="%char (fieldValueText v)).
  rewrite E. cbn [filterBoolean]. now rewrite IH.
Qed.

Lemma join_nonempty (sep : string) (l : list string) :
  l <> [] ->
  (forall x, In x l -> x <> "") ->
  JS.join sep l <> "".
Proof.
  unfold JS.join. destruct l as [|x l]; [congruence|]. intros _ Hne.
  assert (Hx : x <> "") by (apply Hne; now left).
  destruct x as [|c x]; [congruence|].
  destruct l; simpl; discriminate.
Qed.

Lemma length_zero_iff (s : string) :
  Nat.eqb (String.length s) 0 = true <-> s = "".
Proof. destruct s; cbn; split; intros H; try reflexivity; discriminate. Qed.

Lemma length_pos_iff (s : string) :
  Nat.ltb 0 (String.length s) = true <-> s <> "".
Proof.
  destruct s; cbn; split; intros H; try reflexivity; try discriminate.
  now elim H.
Qed.

(** The [fields] text of the encoder is empty exactly for a point without
    fields. *)
Lemma fields_text_empty (l : Record_ FieldValue) :
  JS.join "," (filterBoolean (map formatField l)) = "" <-> l = [].
Proof.
  split; [|intros ->; reflexivity].
  intros E. destruct l as [|kv l]; [reflexivity|]. exfalso.
  rewrite filterBoolean_formatField in E. revert E.
  apply join_nonempty; [discriminate|].
  intros x Hin. apply in_map_iff in Hin. destruct Hin as ([k v] & <- & _).
  cbn [fst snd].
  destruct (append_cons_nonempty (escapeTag k) (fieldValueText v) "="%char)
    as (c' & t' & E).
  change (escapeTag k ++ "=" ++ fieldValueText v)
    with (escapeTag k ++ String "="%char (fieldValueText v)).
  rewrite E. discriminate.
Qed.

Lemma tags_text_empty (l : Record_ string) :
  JS.join "," (map formatTag l) = "" <-> l = [].
Proof.
  split; [|intros ->; reflexivity].
  intros E. destruct l as [|kv l]; [reflexivity|]. exfalso.
  revert E. apply join_nonempty; [discriminate|].
  intros x Hin. apply in_map_iff in Hin. destruct Hin as ([k v] & <- & _).
  cbn [formatTag].
  destruct (append_cons_nonempty (escapeTag k) (escapeTag v) "="%char)
    as (c' & t' & E).
  change (escapeTag k ++ "=" ++ escapeTag v)
    with (escapeTag k ++ String "="%char (escapeTag v)).
  rewrite E. discriminate.
Qed.

(** The shape of an encoded line. *)
Lemma formatLineProtocol_shape (p : VMDataPoint) (line : string) :
  formatLineProtocol p = Normal line ->
  fields p <> [] /\
  line = JS.trim
    (JS.replace [","; " "]%char backslashed (measurement p)
     ++ match tags p with
        | [] => ""
        | _ => "," ++ JS.join "," (map formatTag (tags p))
        end
     ++ " "
     ++ JS.join ","
          (map (fun kv => escapeTag (fst kv) ++ "=" ++ fieldValueText (snd kv))
               (fields p))
     ++ " "
     ++ match timestamp p with
        | Some d => JS.numberToString (getTime d * 1000000)%float
        | None => ""
        end).
Proof.
  unfold formatLineProtocol, entries.
  destruct (Nat.eqb _ 0) eqn:E0; [discriminate|].
  intros H. injection H as <-.
  assert (Hf : fields p <> []).
  { intros Hnil. rewrite Hnil in E0. discriminate. }
  split; [exact Hf|].
  rewrite filterBoolean_formatField.
  destruct (tags p) as [|t ts] eqn:Et.
  - cbn [map JS.join String.concat String.length Nat.ltb Nat.leb append].
    reflexivity.
  - assert (Hpos : Nat.ltb 0 (String.length (JS.join "," (map formatTag (t :: ts)))) = true).
    { apply length_pos_iff. intros E. apply tags_text_empty in E. discriminate. }
    rewrite Hpos. now rewrite !append_assoc.
Qed.

(** A point with at least one field encodes. *)
Lemma formatLineProtocol_total (p : VMDataPoint) :
  fields p <> [] -> exists line, formatLineProtocol p = Normal line.
Proof.
  intros Hf. unfold formatLineProtocol, entries.
  destruct (Nat.eqb _ 0) eqn:E0; [|eauto].
  apply length_zero_iff, fields_text_empty in E0. contradiction.
Qed.

Lemma append_inside (a b x y pre post : string) :
  x = pre ++ y ++ post ->
  a ++ x ++ b = (a ++ pre) ++ y ++ (post ++ b).
Proof. intros ->. now rewrite !append_assoc. Qed.

Lemma escapeTag_escaped (s : string) :
  all_escaped [","; "="; " "]%char (escapeTag s) = true.
Proof.
  apply escaped_after_replace; [reflexivity | trivial].
Qed.

Lemma escapeTag_unescape (s : string) :
  unescape [","; "="; " "]%char (escapeTag s) = s.
Proof. apply unescape_replace. Qed.

Lemma escapeStringField_escaped (s : string) :
  all_escaped [JS.dquote] (escapeStringField s) = true.
Proof.
  rewrite escapeStringField_one_pass.
  apply escaped_after_replace; [reflexivity|].
  intros c Hc. cbn in Hc |- *. rewrite orb_false_r in Hc. rewrite Hc.
  now rewrite orb_true_r.
Qed.

Lemma escapeStringField_unescape (s : string) :
  unescape [JS.backslash; JS.dquote] (escapeStringField s) = s.
Proof. rewrite escapeStringField_one_pass. apply unescape_replace. Qed.

(** A field of the point shows up in the line as [key=value], with the key
    escaped by [escapeTag]. *)
Lemma field_in_line (p : VMDataPoint) (line k : string) (v : FieldValue) :
  formatLineProtocol p = Normal line ->
  In (k, v) (fields p) ->
  exists pre post,
    line = JS.trim (pre ++ (escapeTag k ++ "=" ++ fieldValueText v) ++ post).
Proof.
  intros H Hin. apply formatLineProtocol_shape in H. destruct H as [_ ->].
  set (item := fun kv : string * FieldValue =>
                 escapeTag (fst kv) ++ "=" ++ fieldValueText (snd kv)).
  assert (Hi : In (item (k, v)) (map item (fields p))) by now apply in_map.
  destruct (join_In "," _ _ Hi) as (pre & post & E).
  set (M := JS.replace _ _ _). set (T := match tags p with [] => "" | _ => _ end).
  set (TS := match timestamp p with Some _ => _ | None => "" end).
  exists (M ++ T ++ " " ++ pre), (post ++ " " ++ TS).
  f_equal. rewrite E. unfold item. cbn [fst snd].
  now rewrite !append_assoc.
Qed.

Lemma tag_in_line (p : VMDataPoint) (line k v : string) :
  formatLineProtocol p = Normal line ->
  In (k, v) (tags p) ->
  exists pre post,
    line = JS.trim (pre ++ (escapeTag k ++ "=" ++ escapeTag v) ++ post).
Proof.
  intros H Hin. apply formatLineProtocol_shape in H. destruct H as [_ ->].
  assert (Hi : In (formatTag (k, v)) (map formatTag (tags p))) by now apply in_map.
  destruct (join_In "," _ _ Hi) as (pre & post & E).
  destruct (tags p) as [|t ts] eqn:Et; [contradiction|].
  set (M := JS.replace _ _ _). set (F := JS.join "," (map _ (fields p))).
  set (TS := match timestamp p with Some _ => _ | None => "" end).
  exists (M ++ "," ++ pre), (post ++ " " ++ F ++ " " ++ TS).
  f_equal. rewrite E. cbn [formatTag].
  now rewrite !append_assoc.
Qed.

(** [Number::toString] on a few doubles: integers, fractions, the switch to
    exponent notation at [1e21] and below [1e-6], the special values. *)
Example numberToString_samples :
  map JS.numberToString
    [2; 21.5; 1 / 10; 1e21; 1 / 10000000; 1 / 1000000; -0.5; 0; -0;
     1700000000000000000; 100; 999999999999999 * 1000000; nan; infinity;
     neg_infinity; 3 / 10 + 3 / 5]%float
  = ["2"; "21.5"; "0.1"; "1e+21"; "1e-7"; "0.000001"; "-0.5"; "0"; "0";
     "1700000000000000000"; "100"; "999999999999999000000"; "NaN"; "Infinity";
     "-Infinity"; "0.8999999999999999"].
Proof. vm_compute. reflexivity. Qed.

(** C8: encoding the point [{measurement:"logs", tags:{app:"main"},
    fields:{level:"info", active:true, count:2}}] without a timestamp yields
    exactly [logs,app=main level="info",active=t,count=2].  The rules behind
    it: a string field is written between double quotes, a boolean as the
    one-character token [t] or [f], a number by its decimal literal (here
    [2]); the space before the missing timestamp is trimmed away. *)
Theorem encode_logs_point :
  formatLineProtocol logs_point
  = Normal ("logs,app=main level=" ++ String JS.dquote "info"
            ++ String JS.dquote ",active=t,count=2")
  /\ (forall k s,
        formatField (k, FString s)
        = Some (escapeTag k ++ "=" ++ String JS.dquote (escapeStringField s)
                  ++ String JS.dquote ""))
  /\ (forall k b,
        formatField (k, FBoolean b)
        = Some (escapeTag k ++ "=" ++ (if b then "t" else "f")))
  /\ (forall k x,
        formatField (k, FNumber x)
        = Some (escapeTag k ++ "=" ++ JS.numberToString x))
  /\ JS.numberToString 2 = "2".
Proof.
  split; [vm_compute; reflexivity|].
  repeat split; intros; try reflexivity.
Qed.

(** The timestamp example: millisecond instant 1700000000000 is rendered as
    the nanosecond integer 1700000000000000000 after the fields. *)
Lemma timestamp_example :
  formatLineProtocol
    {| measurement := "m"; tags := []; fields := [("v", FNumber 1)];
       timestamp := Some {| getTime := 1700000000000 |} |}
  = Normal "m v=1 1700000000000000000".
Proof. vm_compute. reflexivity. Qed.

(** Without a timestamp nothing is emitted in its place, and the space
    that would separate it is trimmed away: the line is the trimmed text of
    measurement, tags and fields. *)
Lemma timestamp_absent (p : VMDataPoint) (line : string) :
  formatLineProtocol p = Normal line ->
  timestamp p = None ->
  line = JS.trim
    (JS.replace [","; " "]%char backslashed (measurement p)
     ++ match tags p with
        | [] => ""
        | _ => "," ++ JS.join "," (map formatTag (tags p))
        end
     ++ " "
     ++ JS.join ","
          (map (fun kv => escapeTag (fst kv) ++ "=" ++ fieldValueText (snd kv))
               (fields p))).
Proof.
  intros H Ht. apply formatLineProtocol_shape in H. destruct H as [_ ->].
  rewrite Ht.
  set (M := JS.replace _ _ _). set (T := match tags p with [] => "" | _ => _ end).
  set (F := JS.join "," _).
  rewrite <- (trim_app_space (M ++ T ++ " " ++ F)).
  f_equal. now rewrite !append_assoc.
Qed.

(** The last millisecond instant whose nanosecond value is still written as
    a decimal integer. *)
Lemma timestamp_last_decimal :
  formatLineProtocol
    {| measurement := "m"; tags := []; fields := [("v", FNumber 1)];
       timestamp := Some {| getTime := 999999999999999 |} |}
  = Normal "m v=1 999999999999999000000".
Proof. vm_compute. reflexivity. Qed.

(** C9 (the case the encoder misses): a valid [Date] at millisecond instant
    10^15 is not rendered as the decimal integer 10^21 but in exponent
    notation, because the product is a double and [toString] switches
    notation at 1e21; an invalid [Date] is rendered as [NaN]. *)
Theorem timestamp_far_future_not_decimal :
  formatLineProtocol
    {| measurement := "m"; tags := []; fields := [("v", FNumber 1)];
       timestamp := Some {| getTime := 1000000000000000 |} |}
  = Normal "m v=1 1e+21"
  /\ formatLineProtocol
       {| measurement := "m"; tags := []; fields := [("v", FNumber 1)];
          timestamp := Some {| getTime := nan |} |}
     = Normal "m v=1 NaN".
Proof. split; vm_compute; reflexivity. Qed.

(** C10: every field key goes through [escapeTag], the escaping of tag keys
    and values: in the encoded line the field appears as [key=value] with,
    in the key, a backslash before each comma, equals sign and space, and
    nothing else changed. *)
Theorem field_keys_escaped (p : VMDataPoint) (line k : string) (v : FieldValue) :
  formatLineProtocol p = Normal line ->
  In (k, v) (fields p) ->
  (exists pre post,
     line = JS.trim (pre ++ (escapeTag k ++ "=" ++ fieldValueText v) ++ post))
  /\ all_escaped [","; "="; " "]%char (escapeTag k) = true
  /\ unescape [","; "="; " "]%char (escapeTag k) = k.
Proof.
  intros H Hin. split; [exact (field_in_line p line k v H Hin)|].
  split; [apply escapeTag_escaped | apply escapeTag_unescape].
Qed.

Lemma field_keys_escaped_witness :
  (exists pre post,
     "m a\,b\=c\ d=1"
     = JS.trim (pre ++ (escapeTag "a,b=c d" ++ "=" ++ fieldValueText (FNumber 1))
                    ++ post))
  /\ all_escaped [","; "="; " "]%char (escapeTag "a,b=c d") = true
  /\ unescape [","; "="; " "]%char (escapeTag "a,b=c d") = "a,b=c d".
Proof.
  apply (field_keys_escaped
           {| measurement := "m"; tags := [];
              fields := [("a,b=c d", FNumber 1)]; timestamp := None |}).
  - vm_compute. reflexivity.
  - simpl. left. reflexivity.
Defined.

(** C2, as amended: in the encoded line the measurement name has a backslash
    before each comma and space (an equals sign stays as it is), every tag
    key and tag value has a backslash before each comma, equals sign and
    space, and every string field value has a backslash before each
    backslash and double quote; nothing else in them is changed. *)
Theorem escaping_in_line (p : VMDataPoint) (line : string) :
  formatLineProtocol p = Normal line ->
  let m := JS.replace [","; " "]%char backslashed (measurement p) in
  (exists post, line = JS.trim (m ++ post))
  /\ all_escaped [","; " "]%char m = true
  /\ unescape [","; " "]%char m = measurement p
  /\ (forall k v, In (k, v) (tags p) ->
        (exists pre post,
           line = JS.trim (pre ++ (escapeTag k ++ "=" ++ escapeTag v) ++ post))
        /\ all_escaped [","; "="; " "]%char (escapeTag k) = true
        /\ unescape [","; "="; " "]%char (escapeTag k) = k
        /\ all_escaped [","; "="; " "]%char (escapeTag v) = true
        /\ unescape [","; "="; " "]%char (escapeTag v) = v)
  /\ (forall k s, In (k, FString s) (fields p) ->
        (exists pre post,
           line = JS.trim
                    (pre ++ (escapeTag k ++ "="
                             ++ String JS.dquote (escapeStringField s)
                             ++ String JS.dquote "") ++ post))
        /\ all_escaped [JS.dquote] (escapeStringField s) = true
        /\ unescape [JS.backslash; JS.dquote] (escapeStringField s) = s).
Proof.
  intros H m. repeat split.
  - destruct (formatLineProtocol_shape p line H) as [_ E].
    eexists. exact E.
  - apply escaped_after_replace; [reflexivity | trivial].
  - apply unescape_replace.
  - exact (tag_in_line p line k v H H0).
  - apply escapeTag_escaped.
  - apply escapeTag_unescape.
  - apply escapeTag_escaped.
  - apply escapeTag_unescape.
  - exact (field_in_line p line k (FString s) H H0).
  - apply escapeStringField_escaped.
  - apply escapeStringField_unescape.
Qed.

Lemma escaping_in_line_witness :
  exists line,
    formatLineProtocol escaping_point = Normal line
    /\ (exists post,
          line = JS.trim (JS.replace [","; " "]%char backslashed
                            (measurement escaping_point) ++ post))
    /\ all_escaped [JS.dquote] (escapeStringField (String JS.dquote "a b")) = true.
Proof.
  assert (E : exists line, formatLineProtocol escaping_point = Normal line)
    by (eexists; vm_compute; reflexivity).
  destruct E as [line E]. exists line. split; [exact E|].
  destruct (escaping_in_line escaping_point line E) as (Hm & _ & _ & _ & Hf).
  split; [exact Hm|].
  destruct (Hf "msg" (String JS.dquote "a b")) as (_ & He & _);
    [simpl; left; reflexivity | exact He].
Defined.

(** C2 as stated fails for the measurement name: its equals sign is written
    without a backslash. *)
Lemma measurement_equals_not_escaped :
  formatLineProtocol
    {| measurement := "a=b"; tags := []; fields := [("v", FNumber 1)];
       timestamp := None |}
  = Normal "a=b v=1"
  /\ ~ (forall p line,
          formatLineProtocol p = Normal line ->
          exists post,
            line = JS.trim (JS.replace [","; "="; " "]%char backslashed
                              (measurement p) ++ post)).
Proof.
  split; [vm_compute; reflexivity|].
  intros H.
  destruct (H {| measurement := "a=b"; tags := []; fields := [("v", FNumber 1)];
                 timestamp := None |} "a=b v=1") as [post E];
    [vm_compute; reflexivity|].
  cbn [measurement JS.replace JS.matches existsb Ascii.eqb Bool.eqb orb
       backslashed append] in E.
  unfold JS.trim in E.
  cbn in E.
  destruct (JS.trimEnd post); discriminate.
Qed.

(* ================================================================== *)
(** ** The transport *)

Lemma join_newline_cons (line : string) (rest : list string) :
  rest <> [] ->
  JS.join newline (line :: rest)
  = line ++ String (Ascii.ascii_of_nat 10) (JS.join newline rest).
Proof.
  destruct rest as [|l ls]; [congruence|]. intros _. reflexivity.
Qed.

(** The body [points.join('\n')] is the lines with a line feed between each
    two. *)
Lemma join_newline_lines (points : list string) :
  JS.join newline points = lines_text points.
Proof.
  induction points as [|line rest IH]; [reflexivity|].
  destruct rest as [|l ls]; [reflexivity|].
  rewrite join_newline_cons by discriminate.
  cbn [lines_text]. cbn [lines_text] in IH. now rewrite IH.
Qed.

(** C7: [send] posts the lines joined by newlines, that is, in their order
    with the one character U+000A between each two and nothing around them;
    it adds the header
    [Authorization: Bearer <token>] exactly when a token is configured
    ([auth] given, with a non-empty [bearer]); it succeeds exactly when the
    response has status 204; on any other status it throws an error whose
    message gives the status and then the response body. *)
Theorem send_contract (options : Options.t)
    (fetch : Request -> completion Response) (points : list string) :
  let request := send_request options points in
  req_body request = JS.join newline points
  /\ req_body request = lines_text points
  /\ (forall line rest,
        points = line :: rest -> rest <> [] ->
        req_body request
        = line ++ String (Ascii.ascii_of_nat 10)
                    (req_body (send_request options rest)))
  /\ req_body (send_request options ["a v=1"; "b v=2"])
     = "a v=1" ++ String (Ascii.Ascii false true false true
                                      false false false false) "b v=2"
  /\ req_method request = "POST"
  /\ req_url request = Options.url options ++ "/write"
  /\ (forall token,
        In ("Authorization", "Bearer " ++ token) (req_headers request)
        <-> Options.auth options = Some {| bearer := token |} /\ token <> "")
  /\ (forall value,
        In ("Authorization", value) (req_headers request) ->
        exists token, value = "Bearer " ++ token)
  /\ (send options fetch points = Normal tt
      <-> exists response, fetch request = Normal response
                           /\ status response = 204%N)
  /\ (forall response body,
        fetch request = Normal response ->
        status response <> 204%N ->
        text response = Normal body ->
        send options fetch points
        = Throw {| message := "[VMClient] Server responded with status "
                              ++ JS.digitsOf (status response) ++ ": "
                              ++ body |}).
Proof.
  intros request. subst request.
  split; [reflexivity|].
  split; [apply join_newline_lines|].
  split; [intros line rest -> Hrest; now apply join_newline_cons|].
  split; [reflexivity|].
  split; [reflexivity|]. split; [reflexivity|].
  split; [|split; [|split]].
  - intros token. unfold send_request. cbn [req_headers].
    destruct (Options.auth options) as [[b]|]; cbn [bearer].
    + destruct (Nat.ltb 0 (String.length b)) eqn:Hb.
      * apply length_pos_iff in Hb. cbn [List.app In]. split.
        -- intros [E | [E | []]]; [discriminate|].
           injection E as E. subst b. now split.
        -- intros [E Hne]. injection E as ->. right. now left.
      * assert (b = "") as ->.
        { destruct b; [reflexivity | discriminate]. }
        cbn [In]. split.
        -- intros [E | []]. discriminate.
        -- intros [E Hne]. injection E as <-. now elim Hne.
    + cbn [In]. split.
      * intros [E | []]. discriminate.
      * intros [E _]. discriminate.
  - intros value. unfold send_request. cbn [req_headers].
    destruct (Options.auth options) as [[b]|]; cbn [bearer].
    + destruct (Nat.ltb 0 (String.length b)); cbn [List.app In].
      * intros [E | [E | []]]; [discriminate|].
        injection E as <-. now exists b.
      * intros [E | []]. discriminate.
    + cbn [In]. intros [E | []]. discriminate.
  - unfold send, send_settle, bind.
    destruct (fetch (send_request options points)) as [response | e].
    + destruct (N.eqb_spec (status response) 204) as [E | Hne].
      * split; [intros _; now exists response | reflexivity].
      * split.
        -- destruct (text response); discriminate.
        -- intros (r & Er & Es). injection Er as <-. contradiction.
    + split; [discriminate | intros (r & Er & _); discriminate].
  - intros response body Hf Hs Ht. unfold send, send_settle, bind.
    rewrite Hf. apply N.eqb_neq in Hs. now rewrite Hs, Ht.
Qed.

(* ================================================================== *)
(** ** The write buffer *)

(** What [writePoint] does with a point that encodes. *)
Lemma writePoint_accepts (c : client) (p : VMDataPoint) (line : string) :
  formatLineProtocol p = Normal line ->
  writePoint c p
  = Normal
      (let c1 := set_buffer (List.app (buffer c) [line]) c in
       if (Options.batchSize (options c)
           <=? Z.of_nat (List.length (List.app (buffer c) [line])))%Z
       then flush ByThreshold c1 else c1).
Proof.
  intros H. unfold writePoint. rewrite H. cbn.
  destruct (_ <=? _)%Z; reflexivity.
Qed.

(** What [writePoint] does with a point that does not. *)
Lemma writePoint_rejects (c : client) (p : VMDataPoint) (e : Error) :
  formatLineProtocol p = Throw e ->
  writePoint c p
  = Normal (console_error "[VMClient] Failed to format data point:" e c).
Proof. intros H. unfold writePoint. now rewrite H. Qed.

(** [writePoint] never throws. *)
Lemma writePoint_returns (c : client) (p : VMDataPoint) :
  exists c', writePoint c p = Normal c'.
Proof.
  destruct (formatLineProtocol p) as [line | e] eqn:E.
  - rewrite (writePoint_accepts c p line E). eauto.
  - rewrite (writePoint_rejects c p e E). eauto.
Qed.

(** The events of the application and of the timer leave the flush in
    progress alone and only ever append to the buffer. *)
Lemma step_passive (c c' : client) (ev : event) :
  is_enter ev = false -> is_settle ev = false ->
  step c ev = Some c' ->
  buffer c' = List.app (buffer c) (accepted [ev])
  /\ inflight c' = inflight c
  /\ delivered c' = delivered c
  /\ network c' = network c
  /\ settled c' = settled c
  /\ options c' = options c.
Proof.
  intros He Hs. destruct ev as [p | | | | | r]; try discriminate; cbn [step].
  - unfold accepted. cbn [flat_map].
    destruct (formatLineProtocol p) as [line | e] eqn:E.
    + rewrite (writePoint_accepts c p line E). cbn zeta.
      intros H. injection H as <-. rewrite app_nil_r.
      destruct (_ <=? _)%Z; cbn; auto 10.
    + rewrite (writePoint_rejects c p e E).
      intros H. injection H as <-. cbn. rewrite app_nil_r. auto 10.
  - intros H. injection H as <-. cbn. rewrite app_nil_r. auto 10.
  - destruct (timerId c); [|discriminate].
    intros H. injection H as <-. cbn. rewrite app_nil_r. auto 10.
  - intros H. injection H as <-. cbn. rewrite app_nil_r. auto 10.
Qed.

Lemma accepted_cons (ev : event) (evs : list event) :
  accepted (ev :: evs) = List.app (accepted [ev]) (accepted evs).
Proof. unfold accepted. cbn [flat_map]. now rewrite app_nil_r. Qed.

Lemma accepted_app (evs1 evs2 : list event) :
  accepted (List.app evs1 evs2) = List.app (accepted evs1) (accepted evs2).
Proof. unfold accepted. apply flat_map_app. Qed.

Lemma run_app (c : client) (evs1 evs2 : list event) :
  run c (List.app evs1 evs2)
  = match run c evs1 with
    | Some c1 => run c1 evs2
    | None => None
    end.
Proof.
  revert c. induction evs1 as [|ev evs1 IH]; intros c; [reflexivity|].
  cbn [List.app run]. destruct (step c ev); [apply IH | reflexivity].
Qed.

(** While a send is pending no other flush can enter, so a run without a
    settling leaves the snapshot as it is and appends the accepted lines to
    the buffer. *)
Lemma run_while_sending (c c' : client) (evs : list event)
    (who : caller) (dataToSend : list string) :
  inflight c = Some (who, dataToSend) ->
  forallb (fun ev => negb (is_settle ev)) evs = true ->
  run c evs = Some c' ->
  inflight c' = Some (who, dataToSend)
  /\ buffer c' = List.app (buffer c) (accepted evs)
  /\ delivered c' = delivered c.
Proof.
  revert c. induction evs as [|ev evs IH]; intros c Hi Hall Hrun.
  - injection Hrun as <-. cbn. now rewrite app_nil_r.
  - cbn [forallb] in Hall. apply andb_prop in Hall. destruct Hall as [Hs Hall].
    apply negb_true_iff in Hs.
    cbn [run] in Hrun. destruct (step c ev) as [c1|] eqn:E1; [|discriminate].
    destruct (is_enter ev) eqn:He.
    + destruct ev; try discriminate. cbn [step] in E1.
      unfold flush_enter in E1. rewrite Hi in E1. discriminate.
    + destruct (step_passive c c1 ev He Hs E1) as (Hb & Hi1 & Hd & _).
      rewrite Hi in Hi1.
      destruct (IH c1 Hi1 Hall Hrun) as (Hi' & Hb' & Hd').
      rewrite Hi', Hb', Hd', Hb, Hd, (accepted_cons ev evs), <- app_assoc.
      auto.
Qed.

(** While a send is pending, the requests issued and the flushes ended stay
    as they are. *)
Lemma run_while_sending_quiet (c c' : client) (evs : list event)
    (who : caller) (dataToSend : list string) :
  inflight c = Some (who, dataToSend) ->
  forallb (fun ev => negb (is_settle ev)) evs = true ->
  run c evs = Some c' ->
  network c' = network c /\ settled c' = settled c.
Proof.
  revert c. induction evs as [|ev evs IH]; intros c Hi Hall Hrun.
  - injection Hrun as <-. auto.
  - cbn [forallb] in Hall. apply andb_prop in Hall. destruct Hall as [Hs Hall].
    apply negb_true_iff in Hs.
    cbn [run] in Hrun. destruct (step c ev) as [c1|] eqn:E1; [|discriminate].
    destruct (is_enter ev) eqn:He.
    + destruct ev; try discriminate. cbn [step] in E1.
      unfold flush_enter in E1. rewrite Hi in E1. discriminate.
    + destruct (step_passive c c1 ev He Hs E1) as (_ & Hi1 & _ & Hn & Hst & _).
      rewrite Hi in Hi1.
      destruct (IH c1 Hi1 Hall Hrun) as (Hn' & Hst').
      split; congruence.
Qed.

(** While no send is pending nothing can settle, so a run in which no flush
    enters only appends the accepted lines to the buffer. *)
Lemma run_while_idle (c c' : client) (evs : list event) :
  inflight c = None ->
  forallb (fun ev => negb (is_enter ev)) evs = true ->
  run c evs = Some c' ->
  inflight c' = None
  /\ buffer c' = List.app (buffer c) (accepted evs)
  /\ delivered c' = delivered c.
Proof.
  revert c. induction evs as [|ev evs IH]; intros c Hi Hall Hrun.
  - injection Hrun as <-. cbn. now rewrite app_nil_r.
  - cbn [forallb] in Hall. apply andb_prop in Hall. destruct Hall as [He Hall].
    apply negb_true_iff in He.
    cbn [run] in Hrun. destruct (step c ev) as [c1|] eqn:E1; [|discriminate].
    destruct (is_settle ev) eqn:Hs.
    + destruct ev; try discriminate. cbn [step] in E1.
      unfold flush_settle in E1. rewrite Hi in E1. discriminate.
    + destruct (step_passive c c1 ev He Hs E1) as (Hb & Hi1 & Hd & _).
      rewrite Hi in Hi1.
      destruct (IH c1 Hi1 Hall Hrun) as (Hi' & Hb' & Hd').
      rewrite Hi', Hb', Hd', Hb, Hd, (accepted_cons ev evs), <- app_assoc.
      auto.
Qed.

(** A flush that enters on a non-empty buffer takes all of it. *)
Lemma flush_enter_drains (c c' : client) :
  buffer c <> [] ->
  step c EvEnter = Some c' ->
  exists who,
    inflight c' = Some (who, buffer c)
    /\ inflight c = None
    /\ buffer c' = []
    /\ delivered c' = delivered c
    /\ waiting c = who :: waiting c'
    /\ network c' = List.app (network c) [send_request (options c) (buffer c)]
    /\ settled c' = settled c.
Proof.
  intros Hne. cbn [step]. unfold flush_enter.
  destruct (inflight c) as [i|] eqn:Hi; [discriminate|].
  destruct (waiting c) as [|who rest]; [discriminate|].
  cbn [set_waiting buffer].
  destruct (buffer c) as [|l ls] eqn:Hb; [congruence|].
  cbn [List.length Nat.eqb]. intros H. injection H as <-.
  exists who. cbn. rewrite ?Hb. auto 10.
Qed.

(** A flush that enters on an empty buffer ends at once. *)
Lemma flush_enter_noop (c c' : client) :
  buffer c = [] ->
  step c EvEnter = Some c' ->
  exists who,
    waiting c = who :: waiting c'
    /\ settled c' = List.app (settled c) [(who, Noop)]
    /\ inflight c = None /\ inflight c' = None
    /\ buffer c' = []
    /\ delivered c' = delivered c
    /\ network c' = network c.
Proof.
  intros Hb. cbn [step]. unfold flush_enter.
  destruct (inflight c) as [i|] eqn:Hi; [discriminate|].
  destruct (waiting c) as [|who rest]; [discriminate|].
  cbn [set_waiting buffer]. rewrite Hb. cbn [List.length Nat.eqb].
  intros H. injection H as <-. exists who. destruct who; cbn; auto 10.
Qed.

(** What settling the promise of a flush leaves alone. *)
Lemma flush_settled_frame (who : caller) (how : outcome) (c : client) :
  buffer (flush_settled who how c) = buffer c
  /\ inflight (flush_settled who how c) = inflight c
  /\ waiting (flush_settled who how c) = waiting c
  /\ delivered (flush_settled who how c) = delivered c
  /\ network (flush_settled who how c) = network c
  /\ timerId (flush_settled who how c) = timerId c
  /\ options (flush_settled who how c) = options c
  /\ settled (flush_settled who how c) = List.app (settled c) [(who, how)].
Proof. destruct who, how; cbn; auto 10. Qed.

(** A failed send puts the snapshot back in front of the buffer, when the
    snapshot is no longer than a call takes arguments. *)
Lemma flush_settle_failure (c c' : client) (who : caller)
    (dataToSend : list string) (fetched : completion Response) (error : Error) :
  inflight c = Some (who, dataToSend) ->
  send_settle fetched = Throw error ->
  (Z.of_nat (List.length dataToSend) <= max_arguments engine)%Z ->
  step c (EvSettle fetched) = Some c' ->
  buffer c' = List.app dataToSend (buffer c)
  /\ inflight c' = None
  /\ delivered c' = delivered c
  /\ settled c' = List.app (settled c) [(who, Requeued)]
  /\ console c' = List.app (console c) [("[VMClient] Flush failed:", error)]
  /\ waiting c' = waiting c.
Proof.
  intros Hi Hs Hfits. cbn [step]. unfold flush_settle, unshift_spread.
  rewrite Hi, Hs. apply Z.leb_le in Hfits. rewrite Hfits.
  intros H. injection H as <-. destruct who; cbn; auto 10.
Qed.

(** A failed send of a snapshot longer than that loses the snapshot: the
    buffer keeps only what was pushed since the drain, and the flush is
    rejected with the engine's [RangeError]. *)
Lemma flush_settle_overflow (c c' : client) (who : caller)
    (dataToSend : list string) (fetched : completion Response) (error : Error) :
  inflight c = Some (who, dataToSend) ->
  send_settle fetched = Throw error ->
  (max_arguments engine < Z.of_nat (List.length dataToSend))%Z ->
  step c (EvSettle fetched) = Some c' ->
  buffer c' = buffer c
  /\ inflight c' = None
  /\ delivered c' = delivered c
  /\ settled c' = List.app (settled c) [(who, Rejected (range_error engine))]
  /\ waiting c' = waiting c
  /\ network c' = network c.
Proof.
  intros Hi Hs Hover. cbn [step]. unfold flush_settle, unshift_spread.
  rewrite Hi, Hs. apply Z.leb_gt in Hover. rewrite Hover.
  intros H. injection H as <-. destruct who; cbn; auto 10.
Qed.

(** Either way a failed send ends the flush: the snapshot goes back in
    front, or it is dropped and the flush rejected. *)
Lemma flush_settle_failed (c c' : client) (who : caller)
    (dataToSend : list string) (fetched : completion Response) (error : Error) :
  inflight c = Some (who, dataToSend) ->
  send_settle fetched = Throw error ->
  step c (EvSettle fetched) = Some c' ->
  inflight c' = None
  /\ delivered c' = delivered c
  /\ waiting c' = waiting c
  /\ network c' = network c
  /\ ((buffer c' = List.app dataToSend (buffer c)
       /\ settled c' = List.app (settled c) [(who, Requeued)])
      \/ (buffer c' = buffer c
          /\ settled c'
             = List.app (settled c) [(who, Rejected (range_error engine))])).
Proof.
  intros Hi Hs. cbn [step]. unfold flush_settle, unshift_spread.
  rewrite Hi, Hs.
  destruct (_ <=? _)%Z; intros H; injection H as <-;
    destruct who; cbn; auto 10.
Qed.

(** A successful send hands the snapshot over to the server. *)
Lemma flush_settle_success (c c' : client) (who : caller)
    (dataToSend : list string) (fetched : completion Response) :
  inflight c = Some (who, dataToSend) ->
  send_settle fetched = Normal tt ->
  step c (EvSettle fetched) = Some c' ->
  buffer c' = buffer c
  /\ inflight c' = None
  /\ delivered c' = List.app (delivered c) dataToSend
  /\ settled c' = List.app (settled c) [(who, Sent)]
  /\ waiting c' = waiting c.
Proof.
  intros Hi Hs. cbn [step]. unfold flush_settle. rewrite Hi, Hs.
  intros H. injection H as <-. destruct who; cbn; auto 10.
Qed.

(** When the send of a drained snapshot fails and the snapshot is no
    longer than a call takes arguments, the snapshot goes back to the front
    of the queue in its order, ahead of the lines enqueued while the send was
    pending; the next flush to enter then takes exactly the failed snapshot,
    followed by what was enqueued during the send and by what was enqueued
    since, and nothing has been delivered, lost or doubled. *)
Lemma failed_flush_requeues_in_front (c0 c4 : client)
    (during between : list event) (fetched : completion Response)
    (error : Error) :
  buffer c0 <> [] ->
  (Z.of_nat (List.length (buffer c0)) <= max_arguments engine)%Z ->
  forallb (fun ev => negb (is_settle ev)) during = true ->
  forallb (fun ev => negb (is_enter ev)) between = true ->
  send_settle fetched = Throw error ->
  run c0 (EvEnter :: List.app during
                       (EvSettle fetched :: List.app between [EvEnter]))
  = Some c4 ->
  (exists c c2,
     step c0 EvEnter = Some c
     /\ snapshot c = buffer c0 /\ buffer c = []
     /\ run c (List.app during [EvSettle fetched]) = Some c2
     /\ inflight c2 = None
     /\ buffer c2 = List.app (buffer c0) (accepted during))
  /\ snapshot c4
     = List.app (buffer c0) (List.app (accepted during) (accepted between))
  /\ buffer c4 = []
  /\ delivered c4 = delivered c0.
Proof.
  intros Hne Hfits Hduring Hbetween Hfail Hrun.
  cbn [run] in Hrun.
  destruct (step c0 EvEnter) as [c|] eqn:E0; [|discriminate].
  destruct (flush_enter_drains c0 c Hne E0) as (who & Hi & _ & Hb & Hd & _).
  rewrite run_app in Hrun.
  destruct (run c during) as [c1|] eqn:E1; [|discriminate].
  destruct (run_while_sending c c1 during who (buffer c0) Hi Hduring E1)
    as (Hi1 & Hb1 & Hd1).
  cbn [run] in Hrun.
  destruct (step c1 (EvSettle fetched)) as [c2|] eqn:E2; [|discriminate].
  destruct (flush_settle_failure c1 c2 who (buffer c0) fetched error
              Hi1 Hfail Hfits E2)
    as (Hb2 & Hi2 & Hd2 & _).
  rewrite run_app in Hrun.
  destruct (run c2 between) as [c3|] eqn:E3; [|discriminate].
  destruct (run_while_idle c2 c3 between Hi2 Hbetween E3) as (Hi3 & Hb3 & Hd3).
  cbn [run] in Hrun.
  destruct (step c3 EvEnter) as [c4'|] eqn:E4; [|discriminate].
  injection Hrun as ->.
  assert (Hb3' : buffer c3
                 = List.app (buffer c0)
                     (List.app (accepted during) (accepted between))).
  { rewrite Hb3, Hb2, Hb1, Hb. cbn [List.app]. now rewrite <- app_assoc. }
  assert (Hne3 : buffer c3 <> []).
  { rewrite Hb3'. destruct (buffer c0); [congruence | discriminate]. }
  destruct (flush_enter_drains c3 c4 Hne3 E4) as (who' & Hi4 & _ & Hb4 & Hd4 & _).
  split.
  - exists c, c2. unfold snapshot. rewrite Hi. repeat split; auto.
    + rewrite run_app, E1. cbn [run]. now rewrite E2.
    + rewrite Hb2, Hb1, Hb. reflexivity.
  - unfold snapshot. rewrite Hi4, Hb3'. repeat split; auto.
    congruence.
Qed.

(** C1 (where the code fails the claim): the snapshot is put back by
    [unshift(...dataToSend)], which passes every line as an argument of one
    call.  When the drained snapshot has more lines than a call takes
    arguments and its send fails, that call throws inside the [catch] block,
    after the drain has emptied the buffer: none of the snapshot's lines is
    re-inserted, the buffer holds only what was enqueued during the send,
    nothing has been delivered, the next flush takes what was enqueued during
    and since and not one line of the failed snapshot, and the flush is
    rejected with the engine's [RangeError]. *)
Theorem failed_flush_loses_large_snapshot (c0 c4 : client)
    (during between : list event) (fetched : completion Response)
    (error : Error) :
  (max_arguments engine < Z.of_nat (List.length (buffer c0)))%Z ->
  buffer c0 <> [] ->
  forallb (fun ev => negb (is_settle ev)) during = true ->
  forallb (fun ev => negb (is_enter ev)) between = true ->
  send_settle fetched = Throw error ->
  run c0 (EvEnter :: List.app during
                       (EvSettle fetched :: List.app between [EvEnter]))
  = Some c4 ->
  (exists c2 who,
     run c0 (EvEnter :: List.app during [EvSettle fetched]) = Some c2
     /\ buffer c2 = accepted during
     /\ inflight c2 = None
     /\ delivered c2 = delivered c0
     /\ settled c2
        = List.app (settled c0) [(who, Rejected (range_error engine))])
  /\ snapshot c4 = List.app (accepted during) (accepted between)
  /\ buffer c4 = []
  /\ delivered c4 = delivered c0.
Proof.
  intros Hover Hne Hduring Hbetween Hfail Hrun.
  cbn [run] in Hrun.
  destruct (step c0 EvEnter) as [c|] eqn:E0; [|discriminate].
  destruct (flush_enter_drains c0 c Hne E0)
    as (who & Hi & _ & Hb & Hd & _ & _ & Hs).
  rewrite run_app in Hrun.
  destruct (run c during) as [c1|] eqn:E1; [|discriminate].
  destruct (run_while_sending c c1 during who (buffer c0) Hi Hduring E1)
    as (Hi1 & Hb1 & Hd1).
  destruct (run_while_sending_quiet c c1 during who (buffer c0) Hi Hduring E1)
    as (_ & Hs1).
  cbn [run] in Hrun.
  destruct (step c1 (EvSettle fetched)) as [c2|] eqn:E2; [|discriminate].
  destruct (flush_settle_overflow c1 c2 who (buffer c0) fetched error
              Hi1 Hfail Hover E2)
    as (Hb2 & Hi2 & Hd2 & Hs2 & _).
  rewrite run_app in Hrun.
  destruct (run c2 between) as [c3|] eqn:E3; [|discriminate].
  destruct (run_while_idle c2 c3 between Hi2 Hbetween E3) as (Hi3 & Hb3 & Hd3).
  cbn [run] in Hrun.
  destruct (step c3 EvEnter) as [c4'|] eqn:E4; [|discriminate].
  injection Hrun as ->.
  assert (Hb3' : buffer c3 = List.app (accepted during) (accepted between)).
  { rewrite Hb3, Hb2, Hb1, Hb. reflexivity. }
  split.
  - exists c2, who. cbn [run]. rewrite E0, run_app, E1. cbn [run]. rewrite E2.
    repeat split; try congruence.
    rewrite Hb2, Hb1, Hb. reflexivity.
  - destruct (buffer c3) as [|l ls] eqn:Ebuf.
    + destruct (flush_enter_noop c3 c4 Ebuf E4)
        as (who' & _ & _ & _ & Hi4 & Hb4 & Hd4 & _).
      unfold snapshot. rewrite Hi4, <- Hb3'. repeat split; congruence.
    + assert (Hne3 : buffer c3 <> []) by (rewrite Ebuf; discriminate).
      destruct (flush_enter_drains c3 c4 Hne3 E4)
        as (who' & Hi4 & _ & Hb4 & Hd4 & _).
      unfold snapshot. rewrite Hi4, <- Hb3'. repeat split; congruence.
Qed.


Lemma encodes_line (p : VMDataPoint) :
  encodes p = true -> exists line, formatLineProtocol p = Normal line.
Proof.
  unfold encodes. destruct (formatLineProtocol p) as [line|e]; [eauto|discriminate].
Qed.

(** Writes that keep the buffer below [batchSize] trigger nothing. *)
Lemma writes_below_threshold (ps : list VMDataPoint) (c : client) :
  forallb encodes ps = true ->
  (Z.of_nat (List.length (buffer c) + List.length ps)
   < Options.batchSize (options c))%Z ->
  exists c',
    run c (map EvWritePoint ps) = Some c'
    /\ buffer c' = List.app (buffer c) (accepted (map EvWritePoint ps))
    /\ List.length (buffer c') = List.length (buffer c) + List.length ps
    /\ waiting c' = waiting c
    /\ inflight c' = inflight c
    /\ network c' = network c
    /\ settled c' = settled c
    /\ options c' = options c.
Proof.
  revert c. induction ps as [|p ps IH]; intros c Henc Hlt.
  - exists c. cbn. rewrite app_nil_r, Nat.add_0_r. auto 10.
  - cbn [forallb] in Henc. apply andb_prop in Henc. destruct Henc as [Hp Henc].
    destruct (encodes_line p Hp) as [line Hl].
    cbn [List.length] in Hlt.
    pose (c1 := set_buffer (List.app (buffer c) [line]) c).
    assert (E1 : writePoint c p = Normal c1).
    { rewrite (writePoint_accepts c p line Hl). cbn zeta.
      rewrite length_app. cbn [List.length].
      destruct (Z.leb_spec (Options.batchSize (options c))
                  (Z.of_nat (List.length (buffer c) + 1))); [lia | reflexivity]. }
    destruct (IH c1 Henc) as (c' & Hrun & Hb & Hlen & Hw & Hi & Hn & Hs & Ho).
    { cbn. rewrite length_app. cbn [List.length]. lia. }
    exists c'. cbn [map run step]. rewrite E1.
    split; [exact Hrun|].
    rewrite Hlen, Hb, Hw, Hi, Hn, Hs, Ho.
    cbn [c1 set_buffer buffer waiting inflight network settled options].
    rewrite (accepted_cons (EvWritePoint p)). unfold accepted at 2.
    cbn [flat_map]. rewrite Hl. cbn [List.app].
    rewrite length_app, <- app_assoc. cbn [List.length List.app].
    repeat split; auto. lia.
Qed.

(** C4: from an empty buffer, the first [batchSize - 1] successful
    [writePoint] calls queue no flush, and the [batchSize]-th queues exactly
    one; the call returns with the flush merely queued: no request has been
    issued, no flush has entered or ended. *)
Theorem threshold_triggers_flush (c : client) (ps : list VMDataPoint)
    (p : VMDataPoint) :
  buffer c = [] ->
  forallb encodes (List.app ps [p]) = true ->
  Z.of_nat (List.length (List.app ps [p])) = Options.batchSize (options c) ->
  exists c1 c2,
    run c (map EvWritePoint ps) = Some c1
    /\ writePoint c1 p = Normal c2
    /\ waiting c1 = waiting c
    /\ waiting c2 = List.app (waiting c) [ByThreshold]
    /\ network c2 = network c
    /\ inflight c2 = inflight c
    /\ settled c2 = settled c
    /\ buffer c2 = accepted (map EvWritePoint (List.app ps [p])).
Proof.
  intros Hb Henc Hlen.
  rewrite forallb_app in Henc. apply andb_prop in Henc.
  destruct Henc as [Hps Hp]. cbn [forallb] in Hp. rewrite andb_true_r in Hp.
  rewrite length_app in Hlen. cbn [List.length] in Hlen.
  destruct (writes_below_threshold ps c Hps)
    as (c1 & Hrun & Hb1 & Hlen1 & Hw1 & Hi1 & Hn1 & Hs1 & Ho1).
  { rewrite Hb. cbn [List.length]. lia. }
  destruct (encodes_line p Hp) as [line Hl].
  exists c1. eexists. split; [exact Hrun|].
  split; [apply (writePoint_accepts c1 p line Hl)|].
  cbn zeta. rewrite length_app, Hlen1, Hb, Ho1. cbn [List.length].
  destruct (Z.leb_spec (Options.batchSize (options c))
              (Z.of_nat (0 + List.length ps + 1))) as [_|Hlt]; [|lia].
  cbn. rewrite Hw1, Hi1, Hn1, Hs1, Hb1, Hb.
  rewrite map_app, accepted_app. cbn [map]. unfold accepted at 3.
  cbn [flat_map]. rewrite Hl. cbn [List.app].
  auto 10.
Qed.

(** C5: a point without fields does not encode: the encoder throws "Data
    point must have at least one field"; [writePoint] catches the error,
    reports it on the console and returns normally, with the buffer and
    everything else about the client unchanged, so the point is dropped and
    no flush is triggered. *)
Theorem writePoint_without_fields (c : client) (name : string)
    (tg : Record_ string) (ts : option Date) :
  let point := {| measurement := name; tags := tg; fields := [];
                  timestamp := ts |} in
  let error := {| message := "Data point must have at least one field" |} in
  formatLineProtocol point = Throw error
  /\ exists c',
       writePoint c point = Normal c'
       /\ console c'
          = List.app (console c)
              [("[VMClient] Failed to format data point:", error)]
       /\ buffer c' = buffer c
       /\ waiting c' = waiting c
       /\ inflight c' = inflight c
       /\ network c' = network c
       /\ delivered c' = delivered c
       /\ settled c' = settled c
       /\ timerId c' = timerId c
       /\ options c' = options c.
Proof.
  intros point error.
  assert (E : formatLineProtocol point = Throw error) by reflexivity.
  split; [exact E|].
  eexists. split; [apply (writePoint_rejects c point error E)|].
  cbn. auto 10.
Qed.

(* ------------------------------------------------------------------ *)
(** *** Shutdown *)

(** The three ways a [writePoint] can go. *)
Lemma step_write_cases (c c' : client) (p : VMDataPoint) :
  step c (EvWritePoint p) = Some c' ->
  (exists line,
     formatLineProtocol p = Normal line
     /\ (c' = set_buffer (List.app (buffer c) [line]) c
         \/ c' = flush ByThreshold (set_buffer (List.app (buffer c) [line]) c)))
  \/ (exists e,
        c' = console_error "[VMClient] Failed to format data point:" e c).
Proof.
  cbn [step].
  destruct (formatLineProtocol p) as [line | e] eqn:E.
  - rewrite (writePoint_accepts c p line E). cbn zeta.
    intros H. left. exists line. split; [reflexivity|].
    destruct (_ <=? _)%Z; injection H as <-; auto.
  - rewrite (writePoint_rejects c p e E).
    intros H. injection H as <-. right. now exists e.
Qed.

Ltac step_cases H :=
  match type of H with
  | step _ (EvWritePoint _) = Some _ =>
      apply step_write_cases in H;
      destruct H as [(? & _ & [-> | ->]) | (? & ->)]
  | _ =>
      cbn [step] in H;
      unfold flush_enter, flush_settle, unshift_spread in H;
      repeat match type of H with
        | context [match ?x with _ => _ end] => destruct x eqn:?
        end;
      try discriminate; injection H as <-;
      repeat match goal with
        | w : caller |- _ => destruct w
        end
  end.

(** Once cleared, the interval stays cleared. *)
Lemma step_timer_off (c c' : client) (ev : event) :
  timerId c = false -> step c ev = Some c' -> timerId c' = false.
Proof.
  intros Ht H. destruct ev; step_cases H; cbn; congruence.
Qed.

Lemma run_timer_off (c c' : client) (evs : list event) :
  timerId c = false -> run c evs = Some c' -> timerId c' = false.
Proof.
  revert c. induction evs as [|ev evs IH]; intros c Ht H.
  - injection H as <-. exact Ht.
  - cbn [run] in H. destruct (step c ev) as [c1|] eqn:E1; [|discriminate].
    exact (IH c1 (step_timer_off c c1 ev Ht E1) H).
Qed.

Lemma filter_length_snoc {A} (f : A -> bool) (l : list A) (x : A) :
  List.length (filter f (List.app l [x]))
  = List.length (filter f l) + (if f x then 1 else 0).
Proof.
  rewrite filter_app, length_app. cbn [filter].
  destruct (f x); reflexivity.
Qed.

(** No step other than [shutdown] makes or loses a [flush()] call of
    [shutdown]: the call moves from waiting to sending to ended. *)
Lemma step_flush_calls (c c' : client) (ev : event) :
  is_shutdown ev = false ->
  step c ev = Some c' ->
  flush_calls ByShutdown c' = flush_calls ByShutdown c.
Proof.
  intros Hs H. unfold flush_calls.
  destruct ev; try discriminate; step_cases H;
    cbn [waiting inflight settled flush set_waiting set_buffer set_inflight
         console_error fetch_called resolve acknowledged flush_settled
         outcome_result shutdown_resume];
    rewrite ?filter_length_snoc;
    repeat match goal with
      | E : waiting _ = _ |- _ => rewrite E
      | E : inflight _ = _ |- _ => rewrite E
      end;
    cbn [filter fst caller_eqb List.length];
    repeat match goal with
      | w : caller |- _ => destruct w
      end;
    cbn [filter fst caller_eqb List.length]; lia.
Qed.

Lemma run_flush_calls (c c' : client) (evs : list event) :
  forallb (fun ev => negb (is_shutdown ev)) evs = true ->
  run c evs = Some c' ->
  flush_calls ByShutdown c' = flush_calls ByShutdown c.
Proof.
  revert c. induction evs as [|ev evs IH]; intros c Hall H.
  - now injection H as <-.
  - cbn [forallb] in Hall. apply andb_prop in Hall. destruct Hall as [Hs Hall].
    apply negb_true_iff in Hs.
    cbn [run] in H. destruct (step c ev) as [c1|] eqn:E1; [|discriminate].
    rewrite (IH c1 Hall H). exact (step_flush_calls c c1 ev Hs E1).
Qed.

Lemma filter_length_In {A} (f : A -> bool) (l : list A) (x : A) :
  In x l -> f x = true -> 1 <= List.length (filter f l).
Proof.
  intros Hin Hf. assert (Hx : In x (filter f l)) by (apply filter_In; auto).
  destruct (filter f l); [contradiction | cbn; lia].
Qed.

(** A client that knows of no [flush()] call of [shutdown] has none waiting,
    sending or ended. *)
Lemma flush_calls_none (c : client) :
  flush_calls ByShutdown c = 0 ->
  ~ In ByShutdown (waiting c)
  /\ (forall d, inflight c <> Some (ByShutdown, d))
  /\ (forall how, ~ In (ByShutdown, how) (settled c)).
Proof.
  unfold flush_calls. intros H. repeat split.
  - intros Hin.
    pose proof (filter_length_In (caller_eqb ByShutdown) _ _ Hin eq_refl). lia.
  - intros d Hi. rewrite Hi in H.
    set (n := List.length (filter _ (settled c))) in *. cbn in H. lia.
  - intros how Hin.
    pose proof (filter_length_In (fun x => caller_eqb ByShutdown (fst x))
                  _ _ Hin eq_refl). lia.
Qed.

(** With exactly one such call, none has ended while it waits or sends. *)
Lemma flush_calls_pending (c : client) :
  flush_calls ByShutdown c = 1 ->
  In ByShutdown (waiting c) \/ (exists d, inflight c = Some (ByShutdown, d)) ->
  flush_results ByShutdown c = [].
Proof.
  unfold flush_calls, flush_results. intros H Hpending.
  set (ended := filter _ (settled c)) in *.
  assert (E : List.length ended = 0).
  { destruct Hpending as [Hw | [d Hi]].
    - pose proof (filter_length_In (caller_eqb ByShutdown) _ _ Hw eq_refl). lia.
    - rewrite Hi in H. cbn in H. lia. }
  apply length_zero_iff_nil in E. now rewrite E.
Qed.

(** With exactly one such call, once it has ended it is the only one that
    has, and it neither waits nor sends. *)
Lemma flush_calls_ended (c : client) (how : outcome) :
  flush_calls ByShutdown c = 1 ->
  In (ByShutdown, how) (settled c) ->
  flush_results ByShutdown c = [outcome_result how]
  /\ ~ In ByShutdown (waiting c)
  /\ (forall d, inflight c <> Some (ByShutdown, d)).
Proof.
  unfold flush_calls, flush_results. intros H Hin.
  assert (Hx : In (ByShutdown, how)
                 (filter (fun x => caller_eqb ByShutdown (fst x)) (settled c)))
    by (apply filter_In; auto).
  set (ended := filter _ (settled c)) in *.
  destruct ended as [|x [|y rest]]; [contradiction | | cbn in H; lia].
  destruct Hx as [-> | []]. cbn [List.length] in H.
  split; [reflexivity|]. split.
  - intros Hw.
    pose proof (filter_length_In (caller_eqb ByShutdown) _ _ Hw eq_refl). lia.
  - intros d Hi. rewrite Hi in H. cbn in H. lia.
Qed.

(** A [shutdown()] call returns when the promise of its flush settles, and
    as that promise does: the calls that have returned are the flushes of
    [shutdown] that have ended. *)
Lemma step_shutdowns (c c' : client) (ev : event) :
  step c ev = Some c' ->
  shutdowns c = flush_results ByShutdown c ->
  shutdowns c' = flush_results ByShutdown c'.
Proof.
  intros H Hinv. unfold flush_results in *.
  destruct ev; step_cases H;
    cbn [shutdowns settled flush shutdown clearInterval set_waiting set_buffer
         set_inflight console_error fetch_called resolve acknowledged
         flush_settled outcome_result shutdown_resume];
    rewrite ?filter_app, ?map_app; cbn [filter fst snd caller_eqb map];
    rewrite ?app_nil_r; rewrite Hinv; reflexivity.
Qed.

Lemma run_shutdowns (c c' : client) (evs : list event) :
  run c evs = Some c' ->
  shutdowns c = flush_results ByShutdown c ->
  shutdowns c' = flush_results ByShutdown c'.
Proof.
  revert c. induction evs as [|ev evs IH]; intros c H Hinv.
  - now injection H as <-.
  - cbn [run] in H. destruct (step c ev) as [c1|] eqn:E1; [|discriminate].
    exact (IH c1 H (step_shutdowns c c1 ev E1 Hinv)).
Qed.

(** Without writes, a final flush that did not fail leaves nothing behind,
    and nothing comes back later. *)
Lemma step_drained (c c' : client) (ev : event) :
  is_write ev = false ->
  step c ev = Some c' ->
  drained_by_shutdown c -> drained_by_shutdown c'.
Proof.
  intros Hw H [Hsend Hdone].
  destruct (is_enter ev) eqn:He; [|destruct (is_settle ev) eqn:Hs].
  - destruct ev; try discriminate.
    destruct (buffer c) as [|l ls] eqn:Hb.
    + destruct (flush_enter_noop c c' Hb H) as (who & _ & _ & _ & Hi' & Hb' & _).
      split; [intros d Hd; congruence | auto].
    + assert (Hne : buffer c <> []) by (rewrite Hb; discriminate).
      destruct (flush_enter_drains c c' Hne H)
        as (who & Hi' & _ & Hb' & _ & _ & _ & Hs').
      split; [auto|].
      intros Hin. exfalso.
      rewrite Hs' in Hin. destruct (Hdone Hin) as [Hnil _]. congruence.
  - destruct ev as [ | | | | | fetched]; try discriminate.
    destruct (inflight c) as [[who d]|] eqn:Hi.
    + destruct (send_settle fetched) as [[]|error] eqn:Hf.
      * destruct (flush_settle_success c c' who d fetched Hi Hf H)
          as (Hb' & Hi' & _ & Hs' & _).
        split; [intros d' Hd'; congruence|].
        rewrite Hs'. intros [Hin | Hin]; apply in_app_or in Hin;
          destruct Hin as [Hin | [Hin | []]];
          try (destruct Hdone as [_ Hnone]; [auto|]; congruence);
          try discriminate.
        injection Hin as ->. split; [|exact Hi'].
        rewrite Hb'. now apply (Hsend d).
      * assert (Hi' : inflight c' = None
                      /\ exists how, settled c' = List.app (settled c) [(who, how)]
                                      /\ how <> Sent /\ how <> Noop).
        { destruct (Z.leb_spec (Z.of_nat (List.length d)) (max_arguments engine))
            as [Hfits | Hover].
          - destruct (flush_settle_failure c c' who d fetched error Hi Hf Hfits H)
              as (_ & Hi' & _ & Hs' & _).
            split; [exact Hi'|]. exists Requeued. repeat split; auto; discriminate.
          - destruct (flush_settle_overflow c c' who d fetched error Hi Hf Hover H)
              as (_ & Hi' & _ & Hs' & _).
            split; [exact Hi'|]. exists (Rejected (range_error engine)).
            repeat split; auto; discriminate. }
        destruct Hi' as (Hi' & how & Hs' & Hns & Hnn).
        split; [intros d' Hd'; congruence|].
        rewrite Hs'. intros [Hin | Hin]; apply in_app_or in Hin;
          destruct Hin as [Hin | [Hin | []]];
          try (destruct Hdone as [_ Hnone]; [auto|]; congruence);
          injection Hin as _ <-; congruence.
    + cbn [step] in H. unfold flush_settle in H. rewrite Hi in H. discriminate.
  - destruct (step_passive c c' ev He Hs H) as (Hb & Hi & _ & _ & Hst & _).
    assert (Ha : accepted [ev] = []) by (destruct ev; try discriminate; reflexivity).
    rewrite Ha, app_nil_r in Hb.
    unfold drained_by_shutdown. rewrite Hb, Hi, Hst. auto.
Qed.

Lemma run_drained (c c' : client) (evs : list event) :
  forallb (fun ev => negb (is_write ev)) evs = true ->
  run c evs = Some c' ->
  drained_by_shutdown c -> drained_by_shutdown c'.
Proof.
  revert c. induction evs as [|ev evs IH]; intros c Hall H Hd.
  - now injection H as <-.
  - cbn [forallb] in Hall. apply andb_prop in Hall. destruct Hall as [Hw Hall].
    apply negb_true_iff in Hw.
    cbn [run] in H. destruct (step c ev) as [c1|] eqn:E1; [|discriminate].
    exact (IH c1 Hall H (step_drained c c1 ev Hw E1 Hd)).
Qed.

(** C6: [shutdown] first clears the interval and then calls [flush()] once,
    and it returns when that call has ended, not before.  Right after the
    call the interval is cleared, the flush waits for the mutex and the
    [shutdown] has not returned.  From then on the timer cannot fire; as long
    as the flush waits for the mutex or for the network the [shutdown] has
    not returned; it has returned only if the flush has ended, and once the
    flush has ended it has returned, once, the way the flush settled.  If no
    point is written after the call, a final flush whose send succeeded (or
    that had nothing to send) makes [shutdown] return normally and leaves
    the buffer empty, for good. *)
Theorem shutdown_stops_timer_then_flushes (o : VMClientOptions.t)
    (before after : list event) (c c' : client) :
  forallb (fun ev => negb (is_shutdown ev)) before = true ->
  run (new_VictoriaMetricsClient o) before = Some c ->
  forallb (fun ev => negb (is_shutdown ev)) after = true ->
  run (shutdown c) after = Some c' ->
  (timerId (shutdown c) = false
   /\ waiting (shutdown c) = List.app (waiting c) [ByShutdown]
   /\ buffer (shutdown c) = buffer c
   /\ network (shutdown c) = network c
   /\ shutdowns (shutdown c) = [])
  /\ (timerId c' = false /\ step c' EvTick = None)
  /\ flush_calls ByShutdown c' = 1
  /\ (In ByShutdown (waiting c')
      \/ (exists d, inflight c' = Some (ByShutdown, d)) ->
      shutdowns c' = [])
  /\ (shutdowns c' <> [] ->
      exists how,
        In (ByShutdown, how) (settled c')
        /\ ~ In ByShutdown (waiting c')
        /\ (forall d, inflight c' <> Some (ByShutdown, d)))
  /\ (forall how,
        In (ByShutdown, how) (settled c') ->
        shutdowns c' = [outcome_result how])
  /\ (forallb (fun ev => negb (is_write ev)) after = true ->
      In (ByShutdown, Sent) (settled c') \/ In (ByShutdown, Noop) (settled c') ->
      shutdowns c' = [Normal tt] /\ buffer c' = [] /\ inflight c' = None).
Proof.
  intros Hbefore Hc Hafter Hc'.
  assert (H0 : flush_calls ByShutdown c = 0).
  { rewrite (run_flush_calls _ c before Hbefore Hc). reflexivity. }
  assert (H1 : flush_calls ByShutdown c' = 1).
  { rewrite (run_flush_calls _ c' after Hafter Hc').
    unfold flush_calls in *. cbn [shutdown flush clearInterval set_waiting
                                  waiting inflight settled].
    rewrite filter_length_snoc.
    change (caller_eqb ByShutdown ByShutdown) with true. cbv iota. lia. }
  assert (Ht : timerId c' = false)
    by (apply (run_timer_off (shutdown c) c' after eq_refl Hc')).
  assert (Hr : shutdowns c = flush_results ByShutdown c)
    by (apply (run_shutdowns _ c before Hc); reflexivity).
  assert (Hr' : shutdowns c' = flush_results ByShutdown c')
    by (apply (run_shutdowns _ c' after Hc'); exact Hr).
  destruct (flush_calls_none c H0) as (_ & Hi0 & Hs0).
  assert (Hnone : shutdowns c = []).
  { rewrite Hr. unfold flush_results.
    destruct (filter _ (settled c)) as [|[w how] rest] eqn:Ef; [reflexivity|].
    assert (Hin : In (w, how)
                    (filter (fun x => caller_eqb ByShutdown (fst x)) (settled c)))
      by (rewrite Ef; now left).
    apply filter_In in Hin. destruct Hin as [Hin Hw].
    destruct w; try discriminate. now elim (Hs0 how). }
  split; [cbn; auto 10|].
  split; [split; [exact Ht | cbn [step]; now rewrite Ht]|].
  split; [exact H1|].
  split; [intros Hp; rewrite Hr'; exact (flush_calls_pending c' H1 Hp)|].
  split.
  { intros Hret. rewrite Hr' in Hret. unfold flush_results in Hret.
    destruct (filter _ (settled c')) as [|[w how] rest] eqn:Ef;
      [now elim Hret|].
    assert (Hin : In (w, how)
                    (filter (fun x => caller_eqb ByShutdown (fst x)) (settled c')))
      by (rewrite Ef; now left).
    apply filter_In in Hin. destruct Hin as [Hin Hw].
    destruct w; try discriminate.
    exists how. split; [exact Hin|].
    exact (proj2 (flush_calls_ended c' how H1 Hin)). }
  split.
  { intros how Hin. rewrite Hr'.
    exact (proj1 (flush_calls_ended c' how H1 Hin)). }
  intros Hnowrite Hok.
  split.
  { rewrite Hr'.
    destruct Hok as [Hin | Hin];
      exact (proj1 (flush_calls_ended c' _ H1 Hin)). }
  assert (Hd : drained_by_shutdown (shutdown c)).
  { split.
    - intros d Hi. cbn in Hi. now elim (Hi0 d).
    - cbn [shutdown flush clearInterval set_waiting settled].
      intros [Hin | Hin]; now elim (Hs0 _ Hin). }
  destruct (run_drained _ c' after Hnowrite Hc' Hd) as [_ Hdone].
  exact (Hdone Hok).
Qed.

(* ================================================================== *)
(** ** Further properties of the encoder *)

(** A point encodes exactly when it has a field: an empty measurement,
    empty keys or an invalid date are all let through. *)
Theorem encodes_iff_has_field (p : VMDataPoint) :
  (exists line, formatLineProtocol p = Normal line) <-> fields p <> [].
Proof.
  split.
  - intros [line H]. exact (proj1 (formatLineProtocol_shape p line H)).
  - apply formatLineProtocol_total.
Qed.

Lemma string_forall_app (P : ascii -> bool) (s t : string) :
  string_forall P (s ++ t) = string_forall P s && string_forall P t.
Proof.
  induction s as [|c s IH]; [reflexivity|].
  cbn [append string_forall]. now rewrite IH, andb_assoc.
Qed.

Lemma trimStart_first (s : string) (c : ascii) :
  first_char (JS.trimStart s) = Some c -> JS.isWhiteSpace c = false.
Proof.
  induction s as [|d s IH]; [discriminate|].
  cbn [JS.trimStart]. destruct (JS.isWhiteSpace d) eqn:Hd; [exact IH|].
  intros H. injection H as <-. exact Hd.
Qed.

Lemma trimStart_blank (s : string) :
  JS.trimStart s = "" -> string_forall JS.isWhiteSpace s = true.
Proof.
  induction s as [|d s IH]; [reflexivity|].
  cbn [JS.trimStart string_forall].
  destruct (JS.isWhiteSpace d); [exact IH | discriminate].
Qed.

Lemma trimStart_keeps_visible (s : string) :
  string_forall JS.isWhiteSpace s = false ->
  string_forall JS.isWhiteSpace (JS.trimStart s) = false.
Proof.
  induction s as [|d s IH]; [discriminate|].
  cbn [JS.trimStart]. destruct (JS.isWhiteSpace d) eqn:Hd.
  - cbn [string_forall]. rewrite Hd. exact IH.
  - trivial.
Qed.

Lemma trimEnd_blank (s : string) :
  JS.trimEnd s = "" -> string_forall JS.isWhiteSpace s = true.
Proof.
  induction s as [|d s IH]; [reflexivity|].
  cbn [JS.trimEnd string_forall].
  destruct (JS.trimEnd s) as [|k kept]; [|discriminate].
  destruct (JS.isWhiteSpace d); [intros _; now apply IH | discriminate].
Qed.

Lemma trimEnd_last (s : string) (c : ascii) :
  last_char (JS.trimEnd s) = Some c -> JS.isWhiteSpace c = false.
Proof.
  induction s as [|d s IH]; [discriminate|].
  cbn [JS.trimEnd].
  destruct (JS.trimEnd s) as [|k kept].
  - destruct (JS.isWhiteSpace d) eqn:Hd; [discriminate|].
    intros H. injection H as <-. exact Hd.
  - exact IH.
Qed.

Lemma trimEnd_first (s : string) (c : ascii) :
  first_char (JS.trimEnd s) = Some c -> first_char s = Some c.
Proof.
  destruct s as [|d s]; [discriminate|].
  cbn [JS.trimEnd].
  destruct (JS.trimEnd s); [destruct (JS.isWhiteSpace d); [discriminate|]|];
    trivial.
Qed.

(** [trim] leaves no white space at either end, and leaves something
    whenever there is something to see. *)
Lemma trim_ends (s : string) :
  (forall c, first_char (JS.trim s) = Some c -> JS.isWhiteSpace c = false)
  /\ (forall c, last_char (JS.trim s) = Some c -> JS.isWhiteSpace c = false)
  /\ (string_forall JS.isWhiteSpace s = false -> JS.trim s <> "").
Proof.
  unfold JS.trim. repeat split.
  - intros c H. apply trimEnd_first in H. exact (trimStart_first s c H).
  - intros c. apply trimEnd_last.
  - intros Hs E. apply trimEnd_blank in E.
    apply trimStart_keeps_visible in Hs. congruence.
Qed.

(** An encoded line is never empty: it shows at least the equals sign of a
    field. *)
Lemma formatLineProtocol_nonempty (p : VMDataPoint) (line : string) :
  formatLineProtocol p = Normal line -> line <> "".
Proof.
  intros H.
  destruct (formatLineProtocol_shape p line H) as [Hf _].
  destruct (fields p) as [|[k v] rest] eqn:Ef; [congruence|].
  destruct (field_in_line p line k v H) as (pre & post & ->).
  { rewrite Ef. now left. }
  apply trim_ends.
  rewrite !string_forall_app. cbn [string_forall].
  change (JS.isWhiteSpace "=") with false.
  cbn [andb]. now rewrite !andb_false_r.
Qed.

(** An encoded line is never empty and neither starts nor ends with white
    space, whatever white space the measurement, the keys or the values
    carry. *)
Theorem line_is_trimmed (p : VMDataPoint) (line : string) :
  formatLineProtocol p = Normal line ->
  exists a b,
    first_char line = Some a /\ JS.isWhiteSpace a = false
    /\ last_char line = Some b /\ JS.isWhiteSpace b = false.
Proof.
  intros H.
  pose proof (formatLineProtocol_nonempty p line H) as Hne.
  assert (Hshape : exists raw, line = JS.trim raw).
  { destruct (formatLineProtocol_shape p line H) as [_ E]. eauto. }
  destruct Hshape as [raw ->].
  destruct (trim_ends raw) as (Hfirst & Hlast & _).
  destruct (JS.trim raw) as [|a rest] eqn:Et; [congruence|].
  assert (Hl : exists b, last_char (String a rest) = Some b).
  { clear. revert a. induction rest as [|d rest IH]; intros a; cbn; eauto. }
  destruct Hl as [b Hb].
  exists a, b. repeat split; auto.
Qed.

Lemma line_is_trimmed_witness :
  exists a b,
    first_char "x v=t" = Some a /\ JS.isWhiteSpace a = false
    /\ last_char "x v=t" = Some b /\ JS.isWhiteSpace b = false.
Proof.
  apply (line_is_trimmed
           {| measurement := String "009" "x"; tags := [];
              fields := [("v", FBoolean true)]; timestamp := None |}).
  vm_compute. reflexivity.
Defined.

(** The escapings lose nothing: two different texts never get the same
    escaped form, be it as tag or field key, as tag value, as string field
    value or as measurement name. *)
Theorem escaping_is_injective (a b : string) :
  (escapeTag a = escapeTag b <-> a = b)
  /\ (escapeStringField a = escapeStringField b <-> a = b)
  /\ (JS.replace [","; " "]%char backslashed a
      = JS.replace [","; " "]%char backslashed b <-> a = b).
Proof.
  repeat split; try (intros ->; reflexivity); intros E.
  - rewrite <- (escapeTag_unescape a), <- (escapeTag_unescape b). now rewrite E.
  - rewrite <- (escapeStringField_unescape a), <- (escapeStringField_unescape b).
    now rewrite E.
  - rewrite <- (unescape_replace [","; " "]%char a),
            <- (unescape_replace [","; " "]%char b).
    now rewrite E.
Qed.

Lemma replace_length (re : JS.char_class) (s : string) :
  String.length (JS.replace re backslashed s)
  = String.length s + count_matches re s.
Proof.
  induction s as [|c s IH]; [reflexivity|].
  cbn [JS.replace count_matches].
  destruct (JS.matches re c); cbn [backslashed append String.length];
    rewrite IH; lia.
Qed.

Lemma replace_unmatched (re : JS.char_class) (s : string) :
  count_matches re s = 0 -> JS.replace re backslashed s = s.
Proof.
  induction s as [|c s IH]; [reflexivity|].
  cbn [JS.replace count_matches].
  destruct (JS.matches re c); [discriminate|].
  intros H. now rewrite (IH H).
Qed.

(** Escaping does not touch the matched characters themselves: as many are
    left as there were, as long as the backslash is not one of them. *)
Lemma replace_count (re : JS.char_class) (s : string) :
  JS.matches re JS.backslash = false ->
  count_matches re (JS.replace re backslashed s) = count_matches re s.
Proof.
  intros Hb. induction s as [|c s IH]; [reflexivity|].
  cbn [JS.replace count_matches].
  destruct (JS.matches re c) eqn:Hc.
  - cbn [backslashed append count_matches]. rewrite Hb, Hc, IH. reflexivity.
  - cbn [count_matches]. now rewrite Hc, IH.
Qed.

(** [escapeTag] adds one character per comma, equals sign and space; it
    returns its argument unchanged exactly when there is none; and it is not
    idempotent: escaping an escaped text escapes its separators again. *)
Theorem escapeTag_growth (s : string) :
  let n := count_matches [","; "="; " "]%char s in
  String.length (escapeTag s) = String.length s + n
  /\ (escapeTag s = s <-> n = 0)
  /\ String.length (escapeTag (escapeTag s)) = String.length s + 2 * n
  /\ String.length (escapeStringField s)
     = String.length s + count_matches [JS.backslash; JS.dquote] s.
Proof.
  intros n. subst n. unfold escapeTag.
  assert (L := replace_length [","; "="; " "]%char s).
  repeat split.
  - exact L.
  - intros E. rewrite E in L. lia.
  - apply replace_unmatched.
  - rewrite replace_length, replace_count by reflexivity. lia.
  - rewrite escapeStringField_one_pass. apply replace_length.
Qed.

(* ------------------------------------------------------------------ *)
(** *** The text of a number *)

Lemma digits_plain (d : Decimal.uint) :
  string_forall is_number_char (NilEmpty.string_of_uint d) = true.
Proof. induction d; cbn [NilEmpty.string_of_uint string_forall]; auto. Qed.

Lemma digitsOf_plain (n : N) :
  string_forall is_number_char (JS.digitsOf n) = true /\ JS.digitsOf n <> "".
Proof.
  unfold JS.digitsOf, NilZero.string_of_uint.
  destruct (N.to_uint n) as [|d|d|d|d|d|d|d|d|d|d] eqn:E;
    (split; [first [reflexivity | apply digits_plain] | discriminate]).
Qed.

Lemma substring_forall (P : ascii -> bool) (s : string) (n m : nat) :
  string_forall P s = true -> string_forall P (substring n m s) = true.
Proof.
  revert n m. induction s as [|c s IH]; intros n m H.
  - destruct n, m; reflexivity.
  - cbn [string_forall] in H. apply andb_prop in H. destruct H as [Hc Hs].
    destruct n as [|n]; [destruct m as [|m]|]; cbn [substring string_forall].
    + reflexivity.
    + now rewrite Hc, IH.
    + now apply IH.
Qed.

Lemma repeat0_plain (n : nat) :
  string_forall is_number_char (JS.repeat0 n) = true.
Proof. induction n; cbn [JS.repeat0 string_forall]; auto. Qed.

Lemma layout_plain (n k s : Z) :
  string_forall is_number_char (JS.layout n k s) = true
  /\ JS.layout n k s <> "".
Proof.
  unfold JS.layout, JS.substring_from.
  destruct (digitsOf_plain (Z.to_N s)) as [Hd Hne].
  destruct (digitsOf_plain (Z.abs_N (n - 1))) as [He _].
  set (ds := JS.digitsOf (Z.to_N s)) in *.
  set (es := JS.digitsOf (Z.abs_N (n - 1))) in *.
  assert (Hsign : string_forall is_number_char
                    (if (n - 1 <? 0)%Z then "-" else "+") = true)
    by (destruct (n - 1 <? 0)%Z; reflexivity).
  repeat match goal with
    | |- context [if ?b then _ else _] =>
        lazymatch b with
        | (n - 1 <? 0)%Z => fail
        | _ => destruct b
        end
    end;
    (split;
     [ rewrite ?string_forall_app; cbn [string_forall];
       rewrite ?string_forall_app, ?Hd, ?He, ?Hsign, ?repeat0_plain,
         ?substring_forall by assumption;
       reflexivity
     | ]).
  - destruct ds; [congruence | discriminate].
  - destruct (substring 0 (Z.to_nat n) ds); discriminate.
  - discriminate.
  - destruct ds; [congruence | discriminate].
  - destruct (substring 0 1 ds); discriminate.
Qed.

(** A number is written with digits, a point, an exponent or the words
    [NaN] and [Infinity] only: no white space, comma, equals sign, quote or
    backslash, so a numeric field can never break the structure of a line;
    and it is never written as nothing. *)
Theorem number_text_is_plain (x : float) :
  string_forall is_number_char (JS.numberToString x) = true
  /\ JS.numberToString x <> "".
Proof.
  unfold JS.numberToString.
  destruct (Prim2SF x) as [sg | [|] | | sg m e];
    try (split; [reflexivity | discriminate]).
  destruct (JS.shortest _ _ _ _ _) as [[n k] s].
  destruct (layout_plain n k s) as [Hp Hne].
  destruct sg; cbn [append]; [|auto].
  split; [cbn [string_forall]; now rewrite Hp | discriminate].
Qed.

(** The smallest numbers: among the shortest digit strings that read back
    as the number, the one closest to it is taken, also when the candidates
    differ in their exponent. *)
Example numberToString_subnormal :
  JS.numberToString (Z.ldexp 1 (-1074)) = "5e-324"
  /\ JS.numberToString (Z.ldexp 1 (-1073)) = "1e-323"
  /\ JS.numberToString (Z.ldexp 3 (-1074)) = "1.5e-323"
  /\ JS.numberToString (Z.ldexp 1 (-1072)) = "2e-323"
  /\ JS.numberToString (Z.ldexp 1 (-1022)) = "2.2250738585072014e-308".
Proof. repeat split; vm_compute; reflexivity. Qed.

(* ================================================================== *)
(** ** Further properties of the write buffer *)

(** The options are read, never written. *)
Lemma step_options (c c' : client) (ev : event) :
  step c ev = Some c' -> options c' = options c.
Proof. intros H. destruct ev; step_cases H; reflexivity. Qed.

Lemma run_options (c c' : client) (evs : list event) :
  run c evs = Some c' -> options c' = options c.
Proof.
  revert c. induction evs as [|ev evs IH]; intros c H.
  - now injection H as <-.
  - cbn [run] in H. destruct (step c ev) as [c1|] eqn:E1; [|discriminate].
    rewrite (IH c1 H). exact (step_options c c1 ev E1).
Qed.

(** When the send of a drained snapshot succeeds, the snapshot is handed
    over once and for all: it joins the delivered lines in its order, the
    buffer holds exactly the lines pushed while the send was pending, and the
    one request issued is the one for the snapshot. *)
Theorem successful_flush_delivers (c0 c2 : client) (during : list event)
    (fetched : completion Response) :
  buffer c0 <> [] ->
  forallb (fun ev => negb (is_settle ev)) during = true ->
  send_settle fetched = Normal tt ->
  run c0 (EvEnter :: List.app during [EvSettle fetched]) = Some c2 ->
  delivered c2 = List.app (delivered c0) (buffer c0)
  /\ buffer c2 = accepted during
  /\ inflight c2 = None
  /\ network c2
     = List.app (network c0) [send_request (options c0) (buffer c0)]
  /\ exists who, settled c2 = List.app (settled c0) [(who, Sent)].
Proof.
  intros Hne Hduring Hok Hrun.
  cbn [run] in Hrun.
  destruct (step c0 EvEnter) as [c|] eqn:E0; [|discriminate].
  destruct (flush_enter_drains c0 c Hne E0)
    as (who & Hi & _ & Hb & Hd & _ & Hn & Hs).
  rewrite run_app in Hrun.
  destruct (run c during) as [c1|] eqn:E1; [|discriminate].
  destruct (run_while_sending c c1 during who (buffer c0) Hi Hduring E1)
    as (Hi1 & Hb1 & Hd1).
  destruct (run_while_sending_quiet c c1 during who (buffer c0) Hi Hduring E1)
    as (Hn1 & Hs1).
  cbn [run] in Hrun.
  destruct (step c1 (EvSettle fetched)) as [c2'|] eqn:E2; [|discriminate].
  injection Hrun as ->.
  destruct (flush_settle_success c1 c2 who (buffer c0) fetched Hi1 Hok E2)
    as (Hb2 & Hi2 & Hd2 & Hs2 & _).
  assert (Hn2 : network c2 = network c1).
  { clear - E2. step_cases E2; reflexivity. }
  repeat split.
  - rewrite Hd2, Hd1, Hd. reflexivity.
  - rewrite Hb2, Hb1, Hb. reflexivity.
  - exact Hi2.
  - rewrite Hn2, Hn1, Hn. reflexivity.
  - exists who. rewrite Hs2, Hs1, Hs. reflexivity.
Qed.

Lemma accepted_nonempty (evs : list event) :
  Forall (fun l => l <> "") (accepted evs).
Proof.
  unfold accepted. induction evs as [|ev evs IH]; [constructor|].
  cbn [flat_map]. apply Forall_app. split; [|exact IH].
  destruct ev as [p| | | | |]; try constructor.
  destruct (formatLineProtocol p) as [line|e] eqn:E; constructor;
    [exact (formatLineProtocol_nonempty p line E) | constructor].
Qed.

Lemma step_holds_lines (c c' : client) (ev : event) :
  step c ev = Some c' -> holds_lines c -> holds_lines c'.
Proof.
  intros H (Hb & Hs & Hi). unfold holds_lines.
  destruct (is_enter ev) eqn:He; [|destruct (is_settle ev) eqn:Hst].
  - destruct ev; try discriminate.
    destruct (buffer c) as [|l ls] eqn:Ebuf.
    + destruct (flush_enter_noop c c' Ebuf H)
        as (who & _ & _ & _ & Hi' & Hb' & _).
      unfold snapshot. rewrite Hi', Hb'.
      repeat split; try constructor; try discriminate.
    + assert (Hne : buffer c <> []) by (rewrite Ebuf; discriminate).
      destruct (flush_enter_drains c c' Hne H) as (who & Hi' & _ & Hb' & _).
      unfold snapshot. rewrite Hi', Hb', Ebuf.
      repeat split; try constructor; try (now inversion Hb);
        try discriminate.
  - destruct ev as [ | | | | | fetched]; try discriminate.
    destruct (inflight c) as [[who d]|] eqn:Ei.
    + assert (Hd : Forall (fun l => l <> "") d).
      { unfold snapshot in Hs. now rewrite Ei in Hs. }
      destruct (send_settle fetched) as [[]|error] eqn:Hf.
      * destruct (flush_settle_success c c' who d fetched Ei Hf H)
          as (Hb' & Hi' & _).
        unfold snapshot. rewrite Hi', Hb'.
        repeat split; try constructor; auto; try discriminate.
      * destruct (flush_settle_failed c c' who d fetched error Ei Hf H)
          as (Hi' & _ & _ & _ & [[Hb' _] | [Hb' _]]);
          unfold snapshot; rewrite Hi', Hb';
          repeat split; try constructor; try discriminate;
            try (apply Forall_app; auto); auto.
    + cbn [step] in H. unfold flush_settle in H. rewrite Ei in H. discriminate.
  - destruct (step_passive c c' ev He Hst H) as (Hb' & Hi' & _).
    unfold snapshot in *. rewrite Hi', Hb'.
    repeat split; auto.
    apply Forall_app. split; [exact Hb | apply accepted_nonempty].
Qed.

Lemma sends_snoc (ended : list (caller * outcome)) (who : caller)
    (how : outcome) :
  sends (List.app ended [(who, how)])
  = sends ended + match how with Noop => 0 | _ => 1 end.
Proof.
  unfold sends. rewrite filter_length_snoc. cbn [snd].
  destruct how; reflexivity.
Qed.

(** One request per drain: each request is a POST to [<url>/write] with a
    body, and the requests are as many as the flushes that ended after
    sending, plus the one that is sending. *)
Lemma step_requests (c c' : client) (ev : event) :
  step c ev = Some c' ->
  holds_lines c ->
  Forall (write_request (options c)) (network c)
  /\ List.length (network c)
     = sends (settled c) + match inflight c with Some _ => 1 | None => 0 end ->
  Forall (write_request (options c')) (network c')
  /\ List.length (network c')
     = sends (settled c') + match inflight c' with Some _ => 1 | None => 0 end.
Proof.
  intros H (Hb & _ & _) (Hreq & Hlen).
  rewrite (step_options c c' ev H).
  destruct (is_enter ev) eqn:He; [|destruct (is_settle ev) eqn:Hst].
  - destruct ev; try discriminate.
    destruct (buffer c) as [|l ls] eqn:Ebuf.
    + destruct (flush_enter_noop c c' Ebuf H)
        as (who & _ & Hs' & Hi & Hi' & _ & _ & Hn').
      rewrite Hn', Hs', Hi', sends_snoc. rewrite Hi in Hlen.
      split; [exact Hreq | lia].
    + assert (Hne : buffer c <> []) by (rewrite Ebuf; discriminate).
      destruct (flush_enter_drains c c' Hne H)
        as (who & Hi' & Hi & _ & _ & _ & Hn' & Hs').
      rewrite Hn', Hs', Hi', length_app. rewrite Hi in Hlen.
      split; [|cbn [List.length]; lia].
      apply Forall_app. split; [exact Hreq|].
      constructor; [|constructor].
      repeat split. cbn [send_request req_body].
      apply join_nonempty; [exact Hne|].
      intros x Hx. rewrite Ebuf in Hx. rewrite Forall_forall in Hb.
      now apply Hb.
  - destruct ev as [ | | | | | fetched]; try discriminate.
    destruct (inflight c) as [[who d]|] eqn:Ei.
    + assert (Hn' : network c' = network c).
      { clear - H. step_cases H; reflexivity. }
      rewrite Hn'.
      destruct (send_settle fetched) as [[]|error] eqn:Hf.
      * destruct (flush_settle_success c c' who d fetched Ei Hf H)
          as (_ & Hi' & _ & Hs' & _).
        rewrite Hs', Hi', sends_snoc. split; [exact Hreq | lia].
      * destruct (flush_settle_failed c c' who d fetched error Ei Hf H)
          as (Hi' & _ & _ & _ & [[_ Hs'] | [_ Hs']]);
          rewrite Hs', Hi', sends_snoc; (split; [exact Hreq | lia]).
    + cbn [step] in H. unfold flush_settle in H. rewrite Ei in H. discriminate.
  - destruct (step_passive c c' ev He Hst H) as (_ & Hi' & _ & Hn' & Hs' & _).
    rewrite Hn', Hs', Hi'. auto.
Qed.

(** Whatever happens to a client, its options stay those of its
    construction, every request it has issued is a POST to [<url>/write]
    with a non-empty body (an empty buffer is never sent), and it has issued
    exactly one request per flush that ended after sending, plus one for the
    flush that is sending, of which there is at most one. *)
Theorem requests_are_serial_and_full (o : VMClientOptions.t)
    (evs : list event) (c : client) :
  run (new_VictoriaMetricsClient o) evs = Some c ->
  options c = options (new_VictoriaMetricsClient o)
  /\ Forall (write_request (options c)) (network c)
  /\ List.length (network c)
     = sends (settled c) + match inflight c with Some _ => 1 | None => 0 end.
Proof.
  intros Hrun. split; [exact (run_options _ c evs Hrun)|].
  assert (Hgen : forall evs c0 c1,
             run c0 evs = Some c1 ->
             holds_lines c0 ->
             Forall (write_request (options c0)) (network c0)
             /\ List.length (network c0)
                = sends (settled c0)
                  + match inflight c0 with Some _ => 1 | None => 0 end ->
             Forall (write_request (options c1)) (network c1)
             /\ List.length (network c1)
                = sends (settled c1)
                  + match inflight c1 with Some _ => 1 | None => 0 end).
  { clear. induction evs as [|ev evs IH]; intros c0 c1 H Hl Hr.
    - now injection H as <-.
    - cbn [run] in H. destruct (step c0 ev) as [c'|] eqn:E; [|discriminate].
      exact (IH c' c1 H (step_holds_lines c0 c' ev E Hl)
               (step_requests c0 c' ev E Hl Hr)). }
  apply (Hgen evs _ c Hrun).
  - repeat split; try constructor. discriminate.
  - split; [constructor | reflexivity].
Qed.

(** The threshold is checked on every push: each [writePoint] that leaves
    the buffer at or above [batchSize] queues another flush, so of [n]
    successive writes all but the first [batchSize - len - 1] queue one
    (all of them when [batchSize] is zero or negative), and none of them
    issues a request. *)
Theorem every_write_over_threshold_queues (ps : list VMDataPoint) (c : client) :
  forallb encodes ps = true ->
  exists c',
    run c (map EvWritePoint ps) = Some c'
    /\ buffer c' = List.app (buffer c) (accepted (map EvWritePoint ps))
    /\ waiting c'
       = List.app (waiting c)
           (repeat ByThreshold
              (threshold_calls (Options.batchSize (options c))
                 (List.length (buffer c)) (List.length ps)))
    /\ network c' = network c
    /\ inflight c' = inflight c
    /\ settled c' = settled c.
Proof.
  revert c. induction ps as [|p ps IH]; intros c Henc.
  - exists c. cbn. rewrite !app_nil_r. auto 10.
  - cbn [forallb] in Henc. apply andb_prop in Henc. destruct Henc as [Hp Henc].
    destruct (encodes_line p Hp) as [line Hl].
    pose proof (writePoint_accepts c p line Hl) as E1. cbn zeta in E1.
    rewrite length_app in E1. cbn [List.length] in E1.
    set (b := Options.batchSize (options c)) in *.
    set (len := List.length (buffer c)) in *.
    destruct (Z.leb_spec b (Z.of_nat (len + 1))) as [Hle | Hgt].
    + destruct (IH (flush ByThreshold
                      (set_buffer (List.app (buffer c) [line]) c)) Henc)
        as (c' & Hrun & Hb & Hw & Hn & Hi & Hs).
      exists c'. cbn [map run step]. rewrite E1.
      split; [exact Hrun|].
      rewrite Hb, Hw, Hn, Hi, Hs.
      cbn [flush set_waiting set_buffer buffer waiting network inflight
           settled options].
      rewrite (accepted_cons (EvWritePoint p)). unfold accepted at 2.
      cbn [flat_map]. rewrite Hl. cbn [List.app].
      rewrite length_app, <- !app_assoc. cbn [List.length List.app].
      fold b len.
      replace (threshold_calls b len (S (List.length ps)))
        with (S (threshold_calls b (len + 1) (List.length ps)))
        by (unfold threshold_calls; lia).
      cbn [repeat]. auto 10.
    + destruct (IH (set_buffer (List.app (buffer c) [line]) c) Henc)
        as (c' & Hrun & Hb & Hw & Hn & Hi & Hs).
      exists c'. cbn [map run step]. rewrite E1.
      split; [exact Hrun|].
      rewrite Hb, Hw, Hn, Hi, Hs.
      cbn [set_buffer buffer waiting network inflight settled options].
      rewrite (accepted_cons (EvWritePoint p)). unfold accepted at 2.
      cbn [flat_map]. rewrite Hl. cbn [List.app].
      rewrite length_app, <- !app_assoc. cbn [List.length List.app].
      fold b len.
      replace (threshold_calls b len (S (List.length ps)))
        with (threshold_calls b (len + 1) (List.length ps))
        by (unfold threshold_calls; lia).
      auto 10.
Qed.

(** A flush that fails can be repeated any number of times without harm, as
    long as the buffer has no more lines than a call takes arguments: after
    [k] rounds of flush, drain and failed send with no write in between, the
    buffer is what it was, nothing has been delivered, the same request has
    been issued [k] times with no delay or change between the attempts, and
    each failure has been logged. *)
Theorem failed_flushes_repeat (k : nat) (c : client)
    (fetched : completion Response) (error : Error) :
  inflight c = None ->
  waiting c = [] ->
  buffer c <> [] ->
  (Z.of_nat (List.length (buffer c)) <= max_arguments engine)%Z ->
  send_settle fetched = Throw error ->
  exists c',
    run c (cycles k [EvFlush; EvEnter; EvSettle fetched]) = Some c'
    /\ buffer c' = buffer c
    /\ delivered c' = delivered c
    /\ inflight c' = None
    /\ waiting c' = []
    /\ network c'
       = List.app (network c)
           (repeat (send_request (options c) (buffer c)) k)
    /\ console c'
       = List.app (console c)
           (repeat ("[VMClient] Flush failed:", error) k)
    /\ settled c' = List.app (settled c) (repeat (ByUser, Requeued) k).
Proof.
  revert c. induction k as [|k IH]; intros c Hi Hw Hne Hfits Hfail.
  - exists c. cbn. rewrite !app_nil_r. auto 10.
  - assert (E : exists c1,
               run c [EvFlush; EvEnter; EvSettle fetched] = Some c1
               /\ buffer c1 = buffer c
               /\ delivered c1 = delivered c
               /\ inflight c1 = None
               /\ waiting c1 = []
               /\ network c1
                  = List.app (network c) [send_request (options c) (buffer c)]
               /\ console c1
                  = List.app (console c) [("[VMClient] Flush failed:", error)]
               /\ settled c1 = List.app (settled c) [(ByUser, Requeued)]
               /\ options c1 = options c).
    { apply Z.leb_le in Hfits.
      destruct (buffer c) as [|l ls] eqn:Hb; [congruence|].
      cbn [run step]. unfold flush_enter.
      cbn [flush set_waiting inflight waiting buffer]. rewrite Hi, Hw, Hb.
      cbn [List.app Nat.eqb]. cbn [List.length Nat.eqb]. unfold flush_settle.
      cbn [inflight set_inflight]. rewrite Hfail. unfold unshift_spread.
      rewrite Hfits.
      eexists. split; [reflexivity|].
      cbn. rewrite ?Hb, ?app_nil_r. auto 10. }
    destruct E as (c1 & E & Hb1 & Hd1 & Hi1 & Hw1 & Hn1 & Hc1 & Hs1 & Ho1).
    destruct (IH c1) as (c' & Hrun & Hb' & Hd' & Hi' & Hw' & Hn' & Hc' & Hs');
      try assumption; try congruence.
    exists c'. cbn [cycles]. rewrite run_app, E.
    split; [exact Hrun|].
    rewrite Hb', Hd', Hi', Hw', Hn', Hc', Hs', Hb1, Hd1, Hn1, Hc1, Hs1, Ho1.
    cbn [repeat]. rewrite <- !app_assoc. cbn [List.app]. auto 10.
Qed.

(** Calling [shutdown] twice in a row is harmless when the send succeeds:
    the first call's flush sends the buffer, the second call's flush finds
    it empty and sends nothing; the data goes out once, and both calls
    return normally, the first when its send is answered and the second
    when its flush has found nothing to do. *)
Theorem shutdown_twice_sends_once (c : client) (fetched : completion Response) :
  inflight c = None ->
  waiting c = [] ->
  buffer c <> [] ->
  send_settle fetched = Normal tt ->
  exists c',
    run c [EvShutdown; EvShutdown; EvEnter; EvSettle fetched; EvEnter] = Some c'
    /\ buffer c' = []
    /\ delivered c' = List.app (delivered c) (buffer c)
    /\ network c' = List.app (network c) [send_request (options c) (buffer c)]
    /\ settled c'
       = List.app (settled c) [(ByShutdown, Sent); (ByShutdown, Noop)]
    /\ timerId c' = false
    /\ waiting c' = []
    /\ inflight c' = None
    /\ shutdowns c' = List.app (shutdowns c) [Normal tt; Normal tt].
Proof.
  intros Hi Hw Hne Hok.
  destruct (buffer c) as [|l ls] eqn:Hb; [congruence|].
  cbn [run step]. unfold flush_enter.
  cbn [shutdown flush clearInterval set_waiting inflight waiting buffer].
  rewrite Hi, Hw, Hb.
  cbn [List.app List.length Nat.eqb]. unfold flush_settle.
  cbn [inflight set_inflight]. rewrite Hok.
  cbn [resolve acknowledged set_inflight fetch_called set_buffer set_waiting
       inflight waiting buffer List.length Nat.eqb].
  eexists. split; [reflexivity|].
  cbn. rewrite ?Hb, <- ?app_assoc. auto 10.
Qed.

(** Nothing closes the client: after [shutdown] (timer cleared, no flush
    left) [writePoint] still buffers its points, and as long as they stay
    below the threshold nothing will ever send them: the timer cannot fire,
    no flush waits, no answer is due.  They leave only if the application
    flushes or writes on up to the threshold. *)
Theorem writes_after_shutdown_stay (c : client) (ps : list VMDataPoint) :
  timerId c = false ->
  waiting c = [] ->
  inflight c = None ->
  forallb encodes ps = true ->
  (Z.of_nat (List.length (buffer c) + List.length ps)
   < Options.batchSize (options c))%Z ->
  exists c',
    run c (map EvWritePoint ps) = Some c'
    /\ buffer c' = List.app (buffer c) (accepted (map EvWritePoint ps))
    /\ network c' = network c
    /\ step c' EvTick = None
    /\ step c' EvEnter = None
    /\ forall fetched, step c' (EvSettle fetched) = None.
Proof.
  intros Ht Hw Hi Henc Hlt.
  destruct (writes_below_threshold ps c Henc Hlt)
    as (c' & Hrun & Hb & _ & Hw' & Hi' & Hn & _).
  exists c'. split; [exact Hrun|]. split; [exact Hb|]. split; [exact Hn|].
  rewrite Hw in Hw'. rewrite Hi in Hi'.
  pose proof (run_timer_off c c' _ Ht Hrun) as Ht'.
  cbn [step]. unfold flush_enter, flush_settle.
  rewrite Ht', Hw', Hi'. auto.
Qed.

(* ================================================================== *)
(** ** The read path *)

Lemma response_ok_range (response : Response) :
  response_ok response = true
  <-> (200 <= status response <= 299)%N.
Proof.
  unfold response_ok. rewrite andb_true_iff, !N.leb_le. reflexivity.
Qed.

(** [query] posts [query=<text>] with the text as given (nothing is
    percent-encoded) to [<url>/prometheus/api/v1/query]; it returns the
    parsed body exactly when the response has a status from 200 to 299 and
    its JSON parses, whatever the body says (a body whose own status is
    ['error'] is returned like any other); any other status throws an error
    naming the status and the response text; a failed [fetch] is passed
    on. *)
Theorem query_contract (options : Options.t)
    (fetch : Request -> completion (Response * completion PrometheusQueryResponse.t))
    (text_of_query : string) :
  let request := query_request options text_of_query in
  req_body request = "query=" ++ text_of_query
  /\ req_method request = "POST"
  /\ req_url request = Options.url options ++ "/prometheus/api/v1/query"
  /\ (forall data,
        query options fetch text_of_query = Normal data
        <-> exists response,
              fetch request = Normal (response, Normal data)
              /\ (200 <= status response <= 299)%N)
  /\ (forall response json body,
        fetch request = Normal (response, json) ->
        ~ (200 <= status response <= 299)%N ->
        text response = Normal body ->
        query options fetch text_of_query
        = Throw {| message := "[VMClient] Query failed with status "
                              ++ JS.digitsOf (status response) ++ ": "
                              ++ body |})
  /\ (forall e,
        fetch request = Throw e ->
        query options fetch text_of_query = Throw e).
Proof.
  intros request. subst request.
  split; [reflexivity|]. split; [reflexivity|]. split; [reflexivity|].
  unfold query, query_settle, bind.
  split; [|split].
  - intros data.
    destruct (fetch (query_request options text_of_query))
      as [[response json] | e].
    + destruct (response_ok response) eqn:Hok; cbn [negb].
      * apply response_ok_range in Hok.
        destruct json as [d | e]; split.
        -- intros H. injection H as <-. now exists response.
        -- intros (r & Er & _). now injection Er as <- <-.
        -- discriminate.
        -- intros (r & Er & _). discriminate.
      * split.
        -- destruct (text response); discriminate.
        -- intros (r & Er & Hr). injection Er as <- _.
           apply response_ok_range in Hr. congruence.
    + split; [discriminate | intros (r & Er & _); discriminate].
  - intros response json body Hf Hno Ht. rewrite Hf.
    destruct (response_ok response) eqn:Hok.
    + apply response_ok_range in Hok. contradiction.
    + cbn [negb]. now rewrite Ht.
  - intros e Hf. now rewrite Hf.
Qed.

(** Reads and writes carry the same credentials but judge the answer
    differently: the [Authorization] headers of a query and of a send are
    the same, while a send accepts status 204 alone and a query any status
    from 200 to 299 whose body parses.  An answer that makes a send succeed
    passes the status test of a query, which then ends as the parsing of the
    body does: it returns what was parsed or throws what the parser threw
    (and an answer with status 204 has no body to parse).  The other way
    round, an answer with status 200 makes a query return and a send
    throw. *)
Theorem send_and_query_compared (options : Options.t) (q : string)
    (points : list string) (response : Response)
    (data : PrometheusQueryResponse.t)
    (json : completion PrometheusQueryResponse.t) :
  (forall value,
     In ("Authorization", value) (req_headers (query_request options q))
     <-> In ("Authorization", value) (req_headers (send_request options points)))
  /\ (send_settle (Normal response) = Normal tt <-> status response = 204%N)
  /\ (query_settle (Normal (response, Normal data)) = Normal data
      <-> (200 <= status response <= 299)%N)
  /\ (send_settle (Normal response) = Normal tt ->
      query_settle (Normal (response, json)) = json)
  /\ (forall body,
        let ok := {| status := 200; text := Normal body |} in
        query_settle (Normal (ok, Normal data)) = Normal data
        /\ send_settle (Normal ok)
           = Throw {| message := "[VMClient] Server responded with status 200: "
                                 ++ body |}).
Proof.
  assert (Hsend : send_settle (Normal response) = Normal tt
                  <-> status response = 204%N).
  { unfold send_settle, bind.
    destruct (N.eqb_spec (status response) 204) as [E | Hne].
    - split; auto.
    - split; [destruct (text response); discriminate | contradiction]. }
  assert (Hquery : query_settle (Normal (response, Normal data)) = Normal data
                   <-> (200 <= status response <= 299)%N).
  { unfold query_settle, bind.
    destruct (response_ok response) eqn:Hok; cbn [negb].
    - apply response_ok_range in Hok. split; auto.
    - split.
      + destruct (text response); discriminate.
      + intros Hr. apply response_ok_range in Hr. congruence. }
  split; [|split; [exact Hsend | split; [exact Hquery | split]]].
  - intros value. unfold query_request, send_request. cbn [req_headers].
    destruct (Options.auth options) as [[b]|]; cbn [bearer].
    + destruct (Nat.ltb 0 (String.length b)); cbn [List.app In];
        split; intros [E | H]; try discriminate; auto.
    + cbn [In]. split; intros [E | []]; discriminate.
  - intros Hs. apply Hsend in Hs.
    assert (Hok : response_ok response = true)
      by (apply response_ok_range; rewrite Hs; lia).
    unfold query_settle, bind. rewrite Hok. cbn [negb].
    destruct json; reflexivity.
  - intros body ok. split; reflexivity.
Qed.

Lemma timestamp_absent_witness :
  "m v=1" = JS.trim ("m" ++ "" ++ " " ++ JS.join "," ["v=1"]).
Proof.
  apply (timestamp_absent (point_of "m") "m v=1").
  - vm_compute. reflexivity.
  - reflexivity.
Defined.

(* ================================================================== *)
(** ** [writePoint], whatever the point *)

Lemma encodes_line_fields (p : VMDataPoint) :
  (exists line, formatLineProtocol p = Normal line) -> fields p <> [].
Proof.
  intros [line H]. exact (proj1 (formatLineProtocol_shape p line H)).
Qed.

(** [writePoint] returns normally for every point.  A point with a field is
    appended to the end of the buffer as one line and logs nothing; a point
    without is logged once and leaves the buffer alone.  In neither case is
    a request issued. *)
Theorem writePoint_appends_or_logs (c : client) (p : VMDataPoint) :
  exists c',
    writePoint c p = Normal c'
    /\ network c' = network c
    /\ inflight c' = inflight c
    /\ ((fields p <> []
         /\ (exists line,
               formatLineProtocol p = Normal line
               /\ buffer c' = List.app (buffer c) [line])
         /\ console c' = console c)
        \/ (fields p = []
            /\ buffer c' = buffer c
            /\ exists e, console c'
                         = List.app (console c)
                             [("[VMClient] Failed to format data point:", e)])).
Proof.
  destruct (formatLineProtocol p) as [line | e] eqn:E.
  - rewrite (writePoint_accepts c p line E). cbn zeta.
    eexists. split; [reflexivity|].
    assert (Hf : fields p <> []) by (apply encodes_line_fields; eauto).
    destruct (_ <=? _)%Z; cbn; (split; [reflexivity|]); (split; [reflexivity|]);
      left; eauto.
  - rewrite (writePoint_rejects c p e E).
    eexists. split; [reflexivity|]. cbn.
    split; [reflexivity|]. split; [reflexivity|]. right.
    split; [|eauto].
    destruct (fields p) as [|f fs] eqn:Ef; [reflexivity|]. exfalso.
    destruct (formatLineProtocol_total p) as [line El];
      [rewrite Ef; discriminate | congruence].
Qed.

End Engine.

(* ================================================================== *)
(** ** Examples on a sample engine *)

Lemma failed_flush_loses_large_snapshot_witness :
  exists c4,
    run tiny_engine sample_overfull
      (EvEnter :: List.app [EvWritePoint (point_of "d")]
                    (EvSettle server_error
                     :: List.app [EvWritePoint (point_of "e"); EvTick] [EvEnter]))
    = Some c4
    /\ snapshot c4 = ["d v=1"; "e v=1"]
    /\ buffer c4 = []
    /\ delivered c4 = [].
Proof.
  assert (R : exists c4,
             run tiny_engine sample_overfull
               (EvEnter :: List.app [EvWritePoint (point_of "d")]
                  (EvSettle server_error
                   :: List.app [EvWritePoint (point_of "e"); EvTick] [EvEnter]))
             = Some c4)
    by (eexists; vm_compute; reflexivity).
  destruct R as [c4 R]. exists c4. split; [exact R|].
  destruct (failed_flush_loses_large_snapshot tiny_engine sample_overfull c4
              [EvWritePoint (point_of "d")]
              [EvWritePoint (point_of "e"); EvTick]
              server_error
              {| message := "[VMClient] Server responded with status 500: boom" |})
    as (_ & Hs & Hb & Hd).
  - cbn. lia.
  - discriminate.
  - reflexivity.
  - reflexivity.
  - vm_compute. reflexivity.
  - exact R.
  - repeat split; [exact Hs | exact Hb | exact Hd].
Defined.


Lemma threshold_triggers_flush_witness :
  exists c1 c2,
    run sample_engine (new_VictoriaMetricsClient sample_options)
      (map EvWritePoint [point_of "a"; point_of "b"]) = Some c1
    /\ writePoint c1 (point_of "c") = Normal c2
    /\ waiting c1 = []
    /\ waiting c2 = [ByThreshold]
    /\ network c2 = []
    /\ inflight c2 = None
    /\ settled c2 = []
    /\ buffer c2 = ["a v=1"; "b v=1"; "c v=1"].
Proof.
  apply (threshold_triggers_flush sample_engine
           (new_VictoriaMetricsClient sample_options)
           [point_of "a"; point_of "b"] (point_of "c")).
  - reflexivity.
  - vm_compute. reflexivity.
  - reflexivity.
Defined.

Lemma shutdown_stops_timer_then_flushes_witness :
  exists c c',
    run sample_engine (new_VictoriaMetricsClient sample_options)
      [EvWritePoint (point_of "a"); EvWritePoint (point_of "b")]
    = Some c
    /\ shutdowns (shutdown c) = []
    /\ run sample_engine (shutdown c) [EvEnter; EvSettle no_content] = Some c'
    /\ settled c' = [(ByShutdown, Sent)]
    /\ step sample_engine c' EvTick = None
    /\ shutdowns c' = [Normal tt]
    /\ buffer c' = [].
Proof.
  assert (R : exists c c',
             run sample_engine (new_VictoriaMetricsClient sample_options)
               [EvWritePoint (point_of "a"); EvWritePoint (point_of "b")]
             = Some c
             /\ run sample_engine (shutdown c) [EvEnter; EvSettle no_content]
                = Some c'
             /\ settled c' = [(ByShutdown, Sent)]).
  { eexists. eexists. split; [vm_compute; reflexivity|].
    split; vm_compute; reflexivity. }
  destruct R as (c & c' & R & R' & Rs). exists c, c'.
  destruct (shutdown_stops_timer_then_flushes sample_engine sample_options
              [EvWritePoint (point_of "a"); EvWritePoint (point_of "b")]
              [EvEnter; EvSettle no_content]
              c c' eq_refl R eq_refl R')
    as ((_ & _ & _ & _ & Hcalled) & (_ & Htick) & _ & _ & _ & _ & Hempty).
  destruct Hempty as (Hret & Hb & _);
    [reflexivity | rewrite Rs; left; cbn; auto |].
  repeat split; assumption.
Defined.

Lemma successful_flush_delivers_witness :
  exists c2,
    run sample_engine sample_pending
      (EvEnter :: List.app [EvWritePoint (point_of "c")] [EvSettle no_content])
    = Some c2
    /\ delivered c2 = ["a v=1"; "b v=1"]
    /\ buffer c2 = ["c v=1"].
Proof.
  assert (R : exists c2,
             run sample_engine sample_pending
               (EvEnter :: List.app [EvWritePoint (point_of "c")]
                             [EvSettle no_content])
             = Some c2)
    by (eexists; vm_compute; reflexivity).
  destruct R as [c2 R]. exists c2. split; [exact R|].
  destruct (successful_flush_delivers sample_engine sample_pending c2
              [EvWritePoint (point_of "c")] no_content)
    as (Hd & Hb & _).
  - discriminate.
  - reflexivity.
  - reflexivity.
  - exact R.
  - split; [exact Hd | exact Hb].
Defined.

Lemma requests_are_serial_and_full_witness :
  exists c,
    run sample_engine (new_VictoriaMetricsClient sample_options)
      [EvTick; EvEnter; EvWritePoint (point_of "a"); EvTick; EvEnter;
       EvSettle server_error; EvFlush; EvEnter]
    = Some c
    /\ List.length (network c) = 2
    /\ Forall (write_request (options c)) (network c).
Proof.
  assert (R : exists c,
             run sample_engine (new_VictoriaMetricsClient sample_options)
               [EvTick; EvEnter; EvWritePoint (point_of "a"); EvTick; EvEnter;
                EvSettle server_error; EvFlush; EvEnter]
             = Some c
             /\ sends (settled c)
                + match inflight c with Some _ => 1 | None => 0 end = 2).
  { eexists. split; vm_compute; reflexivity. }
  destruct R as (c & R & Rn). exists c. split; [exact R|].
  destruct (requests_are_serial_and_full sample_engine sample_options _ c R)
    as (_ & Hreq & Hlen).
  split; [congruence | exact Hreq].
Defined.

Lemma every_write_over_threshold_queues_witness :
  exists c',
    run sample_engine (new_VictoriaMetricsClient sample_options)
      (map EvWritePoint
         [point_of "a"; point_of "b"; point_of "c"; point_of "d"; point_of "e"])
    = Some c'
    /\ waiting c' = [ByThreshold; ByThreshold; ByThreshold].
Proof.
  destruct (every_write_over_threshold_queues sample_engine
              [point_of "a"; point_of "b"; point_of "c"; point_of "d";
               point_of "e"]
              (new_VictoriaMetricsClient sample_options))
    as (c' & Hrun & _ & Hw & _).
  - vm_compute. reflexivity.
  - exists c'. split; [exact Hrun | exact Hw].
Defined.

Lemma failed_flushes_repeat_witness :
  exists c',
    run sample_engine
      (set_buffer ["a v=1"] (new_VictoriaMetricsClient sample_options))
      (cycles 3 [EvFlush; EvEnter; EvSettle server_error])
    = Some c'
    /\ buffer c' = ["a v=1"]
    /\ List.length (network c') = 3.
Proof.
  destruct (failed_flushes_repeat sample_engine 3
              (set_buffer ["a v=1"] (new_VictoriaMetricsClient sample_options))
              server_error
              {| message := "[VMClient] Server responded with status 500: boom" |})
    as (c' & Hrun & Hb & _ & _ & _ & Hn & _).
  - reflexivity.
  - reflexivity.
  - discriminate.
  - cbn. lia.
  - vm_compute. reflexivity.
  - exists c'. split; [exact Hrun|]. split; [exact Hb|].
    rewrite Hn. reflexivity.
Defined.

Lemma shutdown_twice_sends_once_witness :
  exists c',
    run sample_engine
      (set_buffer ["a v=1"] (new_VictoriaMetricsClient sample_options))
      [EvShutdown; EvShutdown; EvEnter; EvSettle no_content; EvEnter]
    = Some c'
    /\ buffer c' = []
    /\ delivered c' = ["a v=1"].
Proof.
  destruct (shutdown_twice_sends_once sample_engine
              (set_buffer ["a v=1"] (new_VictoriaMetricsClient sample_options))
              no_content)
    as (c' & Hrun & Hb & Hd & _).
  - reflexivity.
  - reflexivity.
  - discriminate.
  - reflexivity.
  - exists c'. split; [exact Hrun|]. split; [exact Hb | exact Hd].
Defined.

Lemma writes_after_shutdown_stay_witness :
  exists c',
    run sample_engine (shutdown (new_VictoriaMetricsClient sample_options))
      (EvEnter :: map EvWritePoint [point_of "a"; point_of "b"])
    = Some c'
    /\ buffer c' = ["a v=1"; "b v=1"]
    /\ step sample_engine c' EvTick = None
    /\ step sample_engine c' EvEnter = None.
Proof.
  assert (R : exists c,
             run sample_engine
               (shutdown (new_VictoriaMetricsClient sample_options)) [EvEnter]
             = Some c
             /\ timerId c = false /\ waiting c = [] /\ inflight c = None
             /\ buffer c = []
             /\ Options.batchSize (options c) = 3%Z)
    by (eexists; repeat split; vm_compute; reflexivity).
  destruct R as (c & R & Ht & Hw & Hi & Hb & Hsize).
  destruct (writes_after_shutdown_stay sample_engine c
              [point_of "a"; point_of "b"] Ht Hw Hi)
    as (c' & Hrun & Hb' & _ & Htick & Henter & _).
  - vm_compute. reflexivity.
  - rewrite Hb, Hsize. cbn. lia.
  - exists c'. change (EvEnter :: map EvWritePoint [point_of "a"; point_of "b"])
      with (List.app [EvEnter] (map EvWritePoint [point_of "a"; point_of "b"])).
    rewrite run_app, R. split; [exact Hrun|].
    rewrite Hb', Hb. repeat split; auto.
Defined.
